(** * commentclip: the card-grouping and HTML-assembly pipeline of [app.py]

    A shallow embedding of the pure functions of [app.py]
    ([escape_nl2br], [auto_monogram], [color_cycle], [render_card],
    [render_card_grouped], [group_cards_by_article], [render_email_full]
    and the script lines that chain them), followed by the properties
    stated about them.

    Python values are modelled as follows.
    - A [str] is the list of its Unicode code points ([pystr]); indexing
      and slicing in Python count code points, not bytes.
    - A row or entry [dict] with string keys is a [gmap string pystr];
      [d.get(k, default)] is [dget] and [d.get(k)] is [dlookup].
    - [None] in a [str] position is [None : option pystr].
    - An [int] is a [Z].
    - A raised exception is the [Raise] branch of [result]. *)

From Stdlib Require Import ZArith NArith Ascii String Decimal.
From stdpp Require Import base option list gmap strings.

Local Open Scope N_scope.

(** ** Strings *)

Definition char := N.
Definition pystr := list char.

(** UTF-8 decoding of a byte sequence, used only to write the literals
    of the source as Rocq string literals. *)
Fixpoint utf8_decode (bs : list N) : pystr :=
  match bs with
  | [] => []
  | b0 :: r0 =>
    if b0 <? 128 then b0 :: utf8_decode r0
    else match r0 with
    | [] => []
    | b1 :: r1 =>
      if b0 <? 224 then ((b0 - 192) * 64 + (b1 - 128)) :: utf8_decode r1
      else match r1 with
      | [] => []
      | b2 :: r2 =>
        if b0 <? 240
        then ((b0 - 224) * 4096 + (b1 - 128) * 64 + (b2 - 128)) :: utf8_decode r2
        else match r2 with
        | [] => []
        | b3 :: r3 =>
          ((b0 - 240) * 262144 + (b1 - 128) * 4096 + (b2 - 128) * 64 + (b3 - 128))
            :: utf8_decode r3
        end
      end
    end
  end.

Fixpoint bytes_of_string (s : string) : list N :=
  match s with
  | EmptyString => []
  | String a r => N_of_ascii a :: bytes_of_string r
  end.

(** The double quote U+0022 cannot occur inside a literal of this file:
    literals write the grave accent U+0060 in its place (the source has no
    grave accent in any literal embedded here) and [lit] restores it. *)
Definition dquote : char := 34.
Definition grave : char := 96.

Definition lit (s : string) : pystr :=
  map (fun c => if c =? grave then dquote else c) (utf8_decode (bytes_of_string s)).

(** Named code points. *)
Definition ch_nl : char := 10.       (* "\n" *)
Definition ch_space : char := 32.    (* " " *)
Definition ch_amp : char := 38.      (* "&" *)
Definition ch_squote : char := 39.   (* "'" *)
Definition ch_lt : char := 60.       (* "<" *)
Definition ch_gt : char := 62.       (* ">" *)
Definition ch_ideographic_space : char := 12288.  (* "　" *)
Definition ch_mei : char := 21517.   (* "名" *)
Definition ch_yama : char := 23665.  (* "山" *)

(** ** Exceptions *)

Inductive exn := IndexError | KeyError.

Inductive result (A : Type) : Type :=
| Ok (a : A)
| Raise (e : exn).
Arguments Ok {A} a.
Arguments Raise {A} e.

#[export] Instance result_ret : MRet result := fun A a => Ok a.

#[export] Instance result_bind : MBind result := fun A B k r =>
  match r with
  | Ok a => k a
  | Raise e => Raise e
  end.

(** A list comprehension or [for] loop whose body may raise. *)
Fixpoint mapM {A B} (f : A -> result B) (l : list A) : result (list B) :=
  match l with
  | [] => Ok []
  | a :: l' => b ← f a; bs ← mapM f l'; Ok (b :: bs)
  end.

Fixpoint foldM {A S} (f : S -> A -> result S) (l : list A) (s : S) : result S :=
  match l with
  | [] => Ok s
  | a :: l' => s' ← f s a; foldM f l' s'
  end.

(** ** Python built-ins used by the source *)

(** Truth value of a [str]. *)
Definition nonempty (s : pystr) : bool :=
  match s with
  | [] => false
  | _ :: _ => true
  end.

(** [x or d] for [x : Optional[str]]: [None] and the empty string are falsy. *)
Definition or_else (x : option pystr) (d : pystr) : pystr :=
  match x with
  | Some (c :: s) => c :: s
  | _ => d
  end.

(** [x or d] where [d] may raise: [d] is evaluated only when [x] is falsy. *)
Definition or_elseM (x : option pystr) (d : result pystr) : result pystr :=
  match x with
  | Some (c :: s) => Ok (c :: s)
  | _ => d
  end.

(** [str.isspace] on one code point, as [str.strip()] uses it. *)
Definition is_whitespace (c : char) : bool :=
  ((9 <=? c) && (c <=? 13)) || ((28 <=? c) && (c <=? 32))
  || (c =? 133) || (c =? 160) || (c =? 5760)
  || ((8192 <=? c) && (c <=? 8202))
  || (c =? 8232) || (c =? 8233) || (c =? 8239) || (c =? 8287) || (c =? 12288).

Fixpoint lstrip (s : pystr) : pystr :=
  match s with
  | [] => []
  | c :: r => if is_whitespace c then lstrip r else s
  end.

Fixpoint rstrip (s : pystr) : pystr :=
  match s with
  | [] => []
  | c :: r =>
    match rstrip r with
    | [] => if is_whitespace c then [] else [c]
    | r' => c :: r'
    end
  end.

(** [s.strip()] *)
Definition strip (s : pystr) : pystr := rstrip (lstrip s).

(** [s[0]] *)
Definition index0 (s : pystr) : result pystr :=
  match s with
  | [] => Raise IndexError
  | c :: _ => Ok [c]
  end.

(** [s[:1]] *)
Definition slice1 (s : pystr) : pystr := take 1 s.

(** [s.replace(old, new)] for a one-character [old]. *)
Definition replace1 (old : char) (new : pystr) (s : pystr) : pystr :=
  flat_map (fun c => if c =? old then new else [c]) s.

(** [sep.join(l)] *)
Fixpoint join (sep : pystr) (l : list pystr) : pystr :=
  match l with
  | [] => []
  | [x] => x
  | x :: l' => x ++ sep ++ join sep l'
  end.

(** [str(n)] for an [int]. *)
Fixpoint uint_chars (d : Decimal.uint) : pystr :=
  match d with
  | Nil => []
  | D0 d => 48 :: uint_chars d
  | D1 d => 49 :: uint_chars d
  | D2 d => 50 :: uint_chars d
  | D3 d => 51 :: uint_chars d
  | D4 d => 52 :: uint_chars d
  | D5 d => 53 :: uint_chars d
  | D6 d => 54 :: uint_chars d
  | D7 d => 55 :: uint_chars d
  | D8 d => 56 :: uint_chars d
  | D9 d => 57 :: uint_chars d
  end.

Definition str_of_int (n : Z) : pystr :=
  match n with
  | Z0 => [48]
  | Zpos p => uint_chars (Pos.to_uint p)
  | Zneg p => 45 :: uint_chars (Pos.to_uint p)
  end.

(** [html.escape(s)] with its default [quote=True]: five replacements,
    the ampersand first. *)
Definition html_escape (s : pystr) : pystr :=
  let s := replace1 ch_amp (lit "&amp;") s in
  let s := replace1 ch_lt (lit "&lt;") s in
  let s := replace1 ch_gt (lit "&gt;") s in
  let s := replace1 dquote (lit "&quot;") s in
  let s := replace1 ch_squote (lit "&#x27;") s in
  s.

(** [re.split(r"[ 　]+", s)]: the pieces of [s] between the maximal
    runs of ASCII or full-width spaces.  [skipping] holds while the scan
    is inside a run; [acc] is the current piece, reversed. *)
Definition is_sep (c : char) : bool := (c =? ch_space) || (c =? ch_ideographic_space).

Fixpoint split_go (skipping : bool) (acc : pystr) (s : pystr) : list pystr :=
  match s with
  | [] => [rev acc]
  | c :: r =>
    if is_sep c
    then (if skipping then split_go true acc r else rev acc :: split_go true [] r)
    else split_go false (c :: acc) r
  end.

Definition re_split_spaces (s : pystr) : list pystr := split_go false [] s.

(** ** Utilities of [app.py] *)

(** [escape_nl2br] *)
Definition escape_nl2br (text : option pystr) : pystr :=
  match text with
  | None => []
  | Some text => replace1 ch_nl (lit "<br>") (html_escape text)
  end.

(** [auto_monogram] *)
Definition auto_monogram (full_name : option pystr) : result pystr :=
  match full_name with
  | None | Some [] => Ok (lit "名")
  | Some full_name =>
    let tokens := re_split_spaces (strip full_name) in
    match tokens with
    | tok :: _ => if nonempty tok then index0 tok else index0 (strip full_name)
    | [] => index0 (strip full_name)
    end
  end.

(** [color_cycle] *)
Definition color_cycle (idx : Z) : pystr :=
  let palette := [lit "#c7d2fe"; lit "#a5b4fc"] in
  default [] (palette !! Z.to_nat (idx mod Z.of_nat (length palette))%Z).

(** ** Dictionaries and sizes *)

(** A row or an entry of the source is a [Dict[str, str]]. *)
Abbreviation dict := (gmap string pystr).

(** [d.get(k)], which is [None] when [d] has no key [k]. *)
Definition dlookup (d : dict) (k : string) : option pystr := d !! k.

(** [d.get(k, dflt)] *)
Definition dget (d : dict) (k : string) (dflt : pystr) : pystr := default dflt (dlookup d k).

(** [len(l)] *)
Definition len {A} (l : list A) : Z := Z.of_nat (length l).

(** [len(set(l))] *)
Definition len_set (l : list pystr) : Z := Z.of_nat (size (list_to_set l : gset pystr)).

(** [enumerate(l)] *)
Definition enumerate {A} (l : list A) : list (Z * A) := imap (fun i a => (Z.of_nat i, a)) l.

(** ** [render_card] *)

(** The local [_mono] of [render_card]:
    [(monogram or auto_monogram(commenter_name)).strip()[:1] or "名"]. *)
Definition render_card_mono (monogram : option pystr) (commenter_name : pystr) : result pystr :=
  m ← or_elseM monogram (auto_monogram (Some commenter_name));
  Ok (or_else (Some (slice1 (strip m))) (lit "名")).

(** The text of the card template after the closing quote of the
    [href] attribute. *)
Definition render_card_tail : pystr :=
  lit " target=`_blank` rel=`noopener noreferrer`
                     style=`display:block;width:100%;text-align:center;color:#1d4ed8;text-decoration:none;font:700 15px/1 Arial,'Hiragino Kaku Gothic ProN',Meiryo,sans-serif;padding:12px 18px;border-radius:8px;`>
                    記事を読む
                  </a>
                </td>
              </tr></tbody>
            </table>
          </td>
        </tr>
      </tbody>
    </table>
    ".

Definition render_card
    (idx : Z)
    (issue_label article_title comment_text commenter_name commenter_org : pystr)
    (link_url strip_color monogram : option pystr)
    (comment_bar_color : pystr)
    (commenter_bio : option pystr) : result pystr :=
  let _issue_label := escape_nl2br (Some issue_label) in
  let _article_title := escape_nl2br (Some article_title) in
  let _comment_text := escape_nl2br (Some comment_text) in
  let _commenter_name := escape_nl2br (Some commenter_name) in
  let _commenter_org := escape_nl2br (Some commenter_org) in
  let _commenter_bio := escape_nl2br (Some (or_else commenter_bio [])) in
  let _link_url := strip (or_else link_url (lit "#article" ++ str_of_int (idx + 1))) in
  let _strip_color := or_else strip_color (color_cycle idx) in
  _mono ← render_card_mono monogram commenter_name;
  let bio_html :=
    if nonempty _commenter_bio
    then lit "<div style=`color:#94a3b8;font:12px/1.6 Arial,'Hiragino Kaku Gothic ProN',Meiryo,sans-serif;"
         ++ lit "word-break:break-word;margin-top:2px;`>" ++ _commenter_bio ++ lit "</div>"
    else [] in
  let card_html :=
    lit "
    <table role=`presentation` width=`100%` cellpadding=`0` cellspacing=`0` border=`0` style=`background:#ffffff;border:1px solid #e5e7eb;border-radius:12px;`>
      <tbody>
        <tr><td style=`height:4px;background:"
    ++ _strip_color
    ++ lit ";border-top-left-radius:12px;border-top-right-radius:12px;`></td></tr>

        <!-- 見出し：号数 + 記事タイトル -->
        <tr>
          <td style=`padding:16px 20px 8px 20px;`>
            <table role=`presentation` width=`100%` cellpadding=`0` cellspacing=`0` border=`0`>
              <tbody><tr>
                <td style=`text-align:left;`>
                  <span style=`display:inline-block;vertical-align:middle;white-space:nowrap;color:#475569;font-weight:600;font-size:13px;line-height:13px;`>"
    ++ _issue_label
    ++ lit "</span>
                  <span style=`display:inline-block;vertical-align:middle;margin-left:6px;color:#0f172a;font-weight:700;font-size:19px;line-height:19px;word-break:break-word;`>"
    ++ _article_title
    ++ lit "</span>
                </td>
              </tr></tbody>
            </table>
          </td>
        </tr>

        <tr><td style=`padding:6px 20px 0 20px;color:#64748b;font:600 13px/1 Arial,'Hiragino Kaku Gothic ProN',Meiryo,sans-serif;`>コメント</td></tr>
        <tr>
          <td style=`padding:10px 20px 6px 20px;`>
            <table role=`presentation` width=`100%` cellpadding=`0` cellspacing=`0` border=`0`>
              <tbody><tr>
                <td style=`width:6px;background:"
    ++ comment_bar_color
    ++ lit ";`></td>
                <td style=`padding:8px 0 8px 12px;color:#334155;font:15px/1.8 Arial,'Hiragino Kaku Gothic ProN',Meiryo,sans-serif;`>"
    ++ _comment_text
    ++ lit "</td>
              </tr></tbody>
            </table>
          </td>
        </tr>

        <tr>
          <td style=`padding:2px 20px 0 20px;`>
            <table role=`presentation` cellpadding=`0` cellspacing=`0` border=`0`>
              <tbody><tr>
                <td style=`width:1%;vertical-align:middle;`>
                  <div style=`width:40px;height:40px;max-width:40px;min-width:40px;border-radius:50%;
                              background:#eef2f7;color:#64748b;
                              font:700 18px Arial,'Hiragino Kaku Gothic ProN',Meiryo,sans-serif;
                              line-height:40px;text-align:center;`>
                    "
    ++ _mono
    ++ lit "
                  </div>
                </td>
                <td style=`width:12px;`></td>
                <td style=`color:#0f172a;font:600 15px/1.3 Arial,'Hiragino Kaku Gothic ProN',Meiryo,sans-serif;`>
                  <table role=`presentation` cellpadding=`0` cellspacing=`0` border=`0`>
                    <tbody><tr>
                      <td style=`white-space:nowrap;vertical-align:baseline;color:#0f172a;font:600 15px/1.3 Arial,'Hiragino Kaku Gothic ProN',Meiryo,sans-serif;`>"
    ++ _commenter_name
    ++ lit "</td>
                      <td style=`width:10px;`></td>
                      <td style=`vertical-align:baseline;color:#64748b;font:13px/1.4 Arial,'Hiragino Kaku Gothic ProN',Meiryo,sans-serif;word-break:break-word;`>"
    ++ _commenter_org
    ++ lit "</td>
                    </tr></tbody>
                  </table>
                  "
    ++ bio_html
    ++ lit "
                </td>
              </tr></tbody>
            </table>
          </td>
        </tr>

        <tr>
          <td style=`padding:12px 20px 18px 20px;`>
            <table role=`presentation` width=`100%` cellpadding=`0` cellspacing=`0` border=`0`>
              <tbody><tr>
                <td style=`background:#e8f0ff;border:1px solid #c7d2fe;border-radius:8px;`>
                  "
    ++ lit "<a href=`"
    ++ _link_url
    ++ lit "`"
    ++ render_card_tail in
  Ok card_html.

(** ** [render_card_grouped] *)

(** The per-entry monogram of [render_card_grouped] (the elements of
    [monograms] and the local [_mono] of the loop):
    [(e.get("monogram") or auto_monogram(name))[:1] or "名"], where [name]
    is [e.get("name")] with the empty string as default. *)
Definition render_card_grouped_mono (e : dict) : result pystr :=
  m ← or_elseM (dlookup e "monogram") (auto_monogram (Some (dget e "name" [])));
  Ok (or_else (Some (slice1 m)) (lit "名")).

(** One element of [comment_blocks]. *)
Definition render_card_grouped_block (e : dict) : result pystr :=
  let bar := or_else (dlookup e "comment_bar_color") (lit "#2563eb") in
  let _comment := escape_nl2br (Some (dget e "comment" [])) in
  let _name := escape_nl2br (Some (dget e "name" [])) in
  let _org := escape_nl2br (Some (dget e "org" [])) in
  let _bio := escape_nl2br (Some (or_else (Some (dget e "bio" [])) [])) in
  _mono ← render_card_grouped_mono e;
  let bio_html :=
    if nonempty _bio
    then lit "<div style=`color:#94a3b8;font:12px/1.6 Arial,'Hiragino Kaku Gothic ProN',Meiryo,sans-serif;"
         ++ lit "word-break:break-word;margin-top:2px;`>" ++ _bio ++ lit "</div>"
    else [] in
  let block :=
      lit "
        <!-- 個別コメントブロック -->
        <tr><td style=`height:4px;background:"
        ++ bar
        ++ lit ";border-radius:4px 4px 0 0;`></td></tr>

        <tr><td style=`padding:10px 20px 0 20px;`>
          <table role=`presentation` width=`100%` cellpadding=`0` cellspacing=`0` border=`0`>
            <tbody>
              <tr>
                <td style=`width:6px;background:"
        ++ bar
        ++ lit ";`></td>
                <td style=`padding:10px 0 10px 12px;color:#334155;font:15px/1.8 Arial,'Hiragino Kaku Gothic ProN',Meiryo,sans-serif;`>"
        ++ _comment
        ++ lit "</td>
              </tr>
            </tbody>
          </table>
        </td></tr>

        <tr><td style=`padding:2px 20px 10px 20px;`>
          <table role=`presentation` cellpadding=`0` cellspacing=`0` border=`0`>
            <tbody><tr>
              <td style=`width:1%;vertical-align:middle;`>
                <div style=`width:40px;height:40px;border-radius:50%;background:"
        ++ bar
        ++ lit ";
                            color:#ffffff;font:700 18px Arial,'Hiragino Kaku Gothic ProN',Meiryo,sans-serif;
                            line-height:40px;text-align:center;`>
                  "
        ++ _mono
        ++ lit "
                </div>
              </td>
              <td style=`width:12px;`></td>
              <td style=`color:#0f172a;font:600 15px/1.3 Arial,'Hiragino Kaku Gothic ProN',Meiryo,sans-serif;`>
                <table role=`presentation` cellpadding=`0` cellspacing=`0` border=`0`>
                  <tbody><tr>
                    <td style=`white-space:nowrap;vertical-align:baseline;color:#0f172a;font:600 15px/1.3 Arial,'Hiragino Kaku Gothic ProN',Meiryo,sans-serif;`>"
        ++ _name
        ++ lit "</td>
                    <td style=`width:10px;`></td>
                    <td style=`vertical-align:baseline;color:#64748b;font:13px/1.4 Arial,'Hiragino Kaku Gothic ProN',Meiryo,sans-serif;word-break:break-word;`>"
        ++ _org
        ++ lit "</td>
                  </tr></tbody>
                </table>
                "
        ++ bio_html
        ++ lit "
              </td>
            </tr></tbody>
          </table>
        </td></tr>
        " in
  Ok block.

Definition render_card_grouped_tail : pystr :=
  lit " target=`_blank` rel=`noopener noreferrer`
                     style=`display:block;width:100%;text-align:center;color:#1d4ed8;
                            text-decoration:none;font:700 15px/1 Arial,'Hiragino Kaku Gothic ProN',Meiryo,sans-serif;
                            padding:12px 18px;border-radius:8px;`>
                    記事を読む
                  </a>
                </td>
              </tr></tbody>
            </table>
          </td>
        </tr>
      </tbody>
    </table>
    ".

Definition render_card_grouped
    (idx : Z)
    (issue_label article_title : pystr)
    (link_url strip_color : option pystr)
    (entries : list dict) : result pystr :=
  let _issue_label := escape_nl2br (Some issue_label) in
  let _article_title := escape_nl2br (Some article_title) in
  let _link_url := strip (or_else link_url (lit "#article" ++ str_of_int (idx + 1))) in
  let _strip_color := or_else strip_color (color_cycle idx) in
  let commentators := map (fun e => escape_nl2br (Some (dget e "name" []))) entries in
  monograms ← mapM render_card_grouped_mono entries;
  let chips_html :=
    concat (map (fun '(m, e) =>
       lit "<div style=`width:28px;height:28px;border-radius:50%;background:"
       ++ dget e "comment_bar_color" (lit "#eef2f7")
       ++ lit ";
                    color:#ffffff;font:700 14px/28px Arial,'Hiragino Kaku Gothic ProN',Meiryo,sans-serif;
                    text-align:center;display:inline-block;margin-right:6px;`>"
       ++ m
       ++ lit "</div>")
      (zip (take 5 monograms) (take 5 entries))) in
  let more_badge :=
    if (5 <? len monograms)%Z
    then lit "<span style=`display:inline-block;margin-left:4px;color:#475569;
                          font:600 12px/1 Arial,'Hiragino Kaku Gothic ProN',Meiryo,sans-serif;`>+"
         ++ str_of_int (len monograms - 5)
         ++ lit "</span>"
    else [] in
  comment_blocks ← mapM render_card_grouped_block entries;
  let comments_html := join (lit "
<tr><td style=`height:8px;`></td></tr>
") comment_blocks in
  Ok (
    lit "
    <table role=`presentation` width=`100%` cellpadding=`0` cellspacing=`0` border=`0`
           style=`background:#ffffff;border:1px solid #e5e7eb;border-radius:12px;`>
      <tbody>
        <tr><td style=`height:4px;background:"
    ++ _strip_color
    ++ lit ";
                      border-top-left-radius:12px;border-top-right-radius:12px;`></td></tr>

        <!-- 記事タイトル -->
        <tr>
          <td style=`padding:16px 20px 6px 20px;`>
            <table role=`presentation` width=`100%`>
              <tbody><tr>
                <td style=`text-align:left;`>
                  <span style=`display:inline-block;vertical-align:middle;white-space:nowrap;
                               color:#475569;font-weight:600;font-size:13px;line-height:13px;`>
                    "
    ++ _issue_label
    ++ lit "
                  </span>
                  <span style=`display:inline-block;vertical-align:middle;margin-left:6px;
                               color:#0f172a;font-weight:700;font-size:19px;line-height:19px;`>
                    "
    ++ _article_title
    ++ lit "
                  </span>
                </td>
                <td style=`text-align:right;`>
                  <span style=`display:inline-block;background:#f1f5ff;border:1px solid #c7d2fe;
                               color:#1d4ed8;font-weight:700;font-size:12px;padding:6px 10px;
                               border-radius:14px;`>
                    "
    ++ str_of_int (len entries)
    ++ lit "件 / "
    ++ str_of_int (len_set commentators)
    ++ lit "名"
    ++ lit "
                  </span>
                </td>
              </tr></tbody>
            </table>
            <div style=`margin-top:8px;`>"
    ++ chips_html
    ++ more_badge
    ++ lit "</div>
          </td>
        </tr>

        "
    ++ comments_html
    ++ lit "

        <!-- 記事リンク -->
        <tr>
          <td style=`padding:14px 20px 18px 20px;`>
            <table role=`presentation` width=`100%`>
              <tbody><tr>
                <td style=`background:#e8f0ff;border:1px solid #c7d2fe;border-radius:8px;`>
                  "
    ++ lit "<a href=`"
    ++ _link_url
    ++ lit "`"
    ++ render_card_grouped_tail).

(** ** [group_cards_by_article] *)

(** One element of the returned list: the dictionary with the keys
    [issue], [title], [link], [strip_color] and [entries]. *)
Record Group := mkGroup {
  g_issue : pystr;
  g_title : pystr;
  g_link : pystr;
  g_strip_color : pystr;
  g_entries : list dict
}.

Definition with_entries (g : Group) (es : list dict) : Group :=
  mkGroup (g_issue g) (g_title g) (g_link g) (g_strip_color g) es.

Definition with_strip_color (g : Group) (c : pystr) : Group :=
  mkGroup (g_issue g) (g_title g) (g_link g) c (g_entries g).

(** The [OrderedDict] from key tuples to groups, in insertion order. *)
Definition Key : Type := pystr * pystr * pystr.
Definition odict : Type := list (Key * Group).

(** [key in buckets] *)
Definition od_contains (k : Key) (b : odict) : bool := bool_decide (k ∈ b.*1).

(** [buckets[key]] *)
Fixpoint od_get (k : Key) (b : odict) : result Group :=
  match b with
  | [] => Raise KeyError
  | (k', g) :: b' => if decide (k' = k) then Ok g else od_get k b'
  end.

Fixpoint od_replace (k : Key) (g : Group) (b : odict) : odict :=
  match b with
  | [] => []
  | (k', g') :: b' => if decide (k' = k) then (k', g) :: b' else (k', g') :: od_replace k g b'
  end.

(** [buckets[key] = g]: a new key goes to the end, an existing key keeps
    its position.  The same operation stands for a mutation of the group
    held under [key]. *)
Definition od_set (k : Key) (g : Group) (b : odict) : odict :=
  if od_contains k b then od_replace k g b else b ++ [(k, g)].

(** The key tuple of a row. *)
Definition row_key (r : dict) : Key :=
  (strip (dget r "issue" []), strip (dget r "title" []), strip (dget r "link" [])).

(** The entry appended for a row. *)
Definition row_entry (r : dict) : dict :=
  {[ "comment" := dget r "comment" [];
     "name" := dget r "name" [];
     "org" := dget r "org" [];
     "bio" := dget r "bio" [];
     "monogram" := dget r "monogram" [];
     "comment_bar_color" := dget r "comment_bar_color" (lit "#2563eb") ]}.

(** The body of the [for r in rows] loop. *)
Definition group_step (buckets : odict) (r : dict) : result odict :=
  let key := row_key r in
  let buckets :=
    if negb (od_contains key buckets)
    then od_set key
           {| g_issue := strip (dget r "issue" []);
              g_title := strip (dget r "title" []);
              g_link := strip (dget r "link" []);
              g_strip_color := or_else (dlookup r "strip_color") (lit "#c7d2fe");
              g_entries := [] |} buckets
    else buckets in
  g ← od_get key buckets;
  let buckets := od_set key (with_entries g (g_entries g ++ [row_entry r])) buckets in
  g ← od_get key buckets;
  if negb (nonempty (g_strip_color g))
  then Ok (od_set key (with_strip_color g (or_else (dlookup r "strip_color") (color_cycle 0))) buckets)
  else Ok buckets.

Definition group_cards_by_article (rows : list dict) : result (list Group) :=
  buckets ← foldM group_step rows [];
  Ok (buckets.*2).

(** ** [render_email_full] *)

Definition render_email_full
    (title_text badge_text header_title delivery_text description_text : pystr)
    (cards : list pystr) : pystr :=
  let _title_text := escape_nl2br (Some title_text) in
  let _badge_text := escape_nl2br (Some badge_text) in
  let _header_title := escape_nl2br (Some header_title) in
  let _delivery_text := escape_nl2br (Some delivery_text) in
  let _description_text := escape_nl2br (Some description_text) in
  let spacer := lit "<div style=`height:18px;line-height:18px;`>&nbsp;</div>" in
  let body_cards_html := join spacer cards in
  let html_full :=
    lit "<meta charset=`UTF-8`>
<title>"
    ++ _title_text
    ++ lit "</title>

<!-- 100% wrapper -->
<table role=`presentation` width=`100%` cellpadding=`0` cellspacing=`0` border=`0` style=`margin:0;padding:0;background:#f3f6fb;`>
  <tbody><tr>
    <td align=`center` style=`padding:0;`>

      <!-- ===== Header ===== -->
      <table role=`presentation` width=`100%` cellpadding=`0` cellspacing=`0` border=`0` style=`background:#0b1b34;`>
        <tbody><tr>
          <td align=`center` style=`padding:0;`>
            <table role=`presentation` width=`900` cellpadding=`0` cellspacing=`0` border=`0` style=`max-width:900px;width:100%;`>
              <tbody><tr>
                <td style=`padding:20px 24px 12px 24px;`>
                  <table role=`presentation` width=`100%` cellpadding=`0` cellspacing=`0` border=`0`>
                    <tbody><tr>
                      <td>
                        <span style=`display:inline-block;vertical-align:middle;background:#22315b;border:1px solid #2f3c66;color:#ffffff;font-weight:800;font-size:12px;letter-spacing:.04em;padding:7px 14px;border-radius:16px;font-family:Arial,'Hiragino Kaku Gothic ProN',Meiryo,sans-serif;`>"
    ++ _badge_text
    ++ lit "</span>
                        <span style=`display:inline-block;vertical-align:middle;margin-left:12px;color:#ffffff;font-weight:800;font-size:22px;letter-spacing:.01em;font-family:Arial,'Hiragino Kaku Gothic ProN',Meiryo,sans-serif;`>"
    ++ _header_title
    ++ lit "</span>
                      </td>
                    </tr></tbody>
                  </table>
                  <table role=`presentation` width=`100%` cellpadding=`0` cellspacing=`0` border=`0`>
                    <tbody><tr>
                      <td style=`padding-top:8px;color:#dbeafe;font-size:14px;font-family:Arial,'Hiragino Kaku Gothic ProN',Meiryo,sans-serif;`>"
    ++ _delivery_text
    ++ lit "</td>
                    </tr></tbody>
                  </table>
                  <table role=`presentation` width=`100%` cellpadding=`0` cellspacing=`0` border=`0`>
                    <tbody><tr>
                      <td style=`padding-top:6px;color:#c7d2fe;font-size:13px;line-height:1.7;font-family:Arial,'Hiragino Kaku Gothic ProN',Meiryo,sans-serif;`>
                        "
    ++ _description_text
    ++ lit "
                      </td>
                    </tr></tbody>
                  </table>
                </td>
              </tr></tbody>
            </table>
          </td>
        </tr></tbody>
      </table>
      <!-- ===== /Header ===== -->

      <!-- ===== Body ===== -->
      <table role=`presentation` width=`900` cellpadding=`0` cellspacing=`0` border=`0` style=`max-width:900px;width:100%;background:#f3f6fb;`>
        <tbody><tr>
          <td style=`padding:24px;`>
            "
    ++ body_cards_html
    ++ lit "
          </td>
        </tr></tbody>
      </table>
      <!-- ===== /Body ===== -->

      <!-- ===== Footer ===== -->
      <table role=`presentation` width=`100%` cellpadding=`0` cellspacing=`0` border=`0` style=`background:#0b1b34;`>
        <tbody><tr>
          <td align=`center` style=`padding:18px 12px;`>
            <div style=`color:#ffffff;font:12.5px/1.6 Arial,'Hiragino Kaku Gothic ProN',Meiryo,sans-serif;`>
              Copyright© 2016 Zeimu Kenkyukai, All rights reserved.
            </div>
            <div style=`margin-top:8px;font-family:Arial,'Hiragino Kaku Gothic ProN',Meiryo,sans-serif;`>
              <a href=`https://www.zeiken.co.jp/privacy/` style=`color:#ffffff;text-decoration:none;margin:0 10px;`>個人情報の保護について</a>
              <a href=`https://www.zeiken.co.jp/contact/request/` style=`color:#ffffff;text-decoration:none;margin:0 10px;`>お問い合わせ</a>
            </div>
          </td>
        </tr></tbody>
      </table>
      <!-- ===== /Footer ===== -->

    </td>
  </tr></tbody>
</table>
" in
  html_full.

(** ** The script: from [cards_data] to [full_html] *)

(** The list [cards_html_list] built from [cards_data], with or without
    grouping. *)
Definition cards_html_list (use_grouping : bool) (cards_data : list dict)
  : result (list pystr) :=
  if use_grouping
  then
    grouped ← group_cards_by_article cards_data;
    mapM (fun '(idx, g) =>
      render_card_grouped idx (g_issue g) (g_title g)
        (Some (g_link g)) (Some (g_strip_color g)) (g_entries g))
      (enumerate grouped)
  else
    mapM (fun '(idx, c) =>
      render_card idx
        (dget c "issue" []) (dget c "title" []) (dget c "comment" [])
        (dget c "name" []) (dget c "org" [])
        (Some (dget c "link" (lit "#article" ++ str_of_int (idx + 1))))
        (Some (or_else (dlookup c "strip_color") (color_cycle idx)))
        (Some (dget c "monogram" []))
        (dget c "comment_bar_color" (lit "#2563eb"))
        (Some (dget c "bio" [])))
      (enumerate cards_data).

(** The placeholder the script passes when there is no card. *)
Definition no_cards : pystr := lit "<!-- No cards -->".

(** The value [full_html], given the list [cards_html_list]. *)
Definition full_html
    (title_text badge_text header_title delivery_text description_text : pystr)
    (cards_html_list : list pystr) : pystr :=
  render_email_full title_text badge_text header_title delivery_text description_text
    (match cards_html_list with
     | [] => [no_cards]
     | _ :: _ => cards_html_list
     end).

(** The whole pipeline. *)
Definition pipeline
    (use_grouping : bool)
    (title_text badge_text header_title delivery_text description_text : pystr)
    (cards_data : list dict) : result pystr :=
  cards ← cards_html_list use_grouping cards_data;
  Ok (full_html title_text badge_text header_title delivery_text description_text cards).

(** ** Notions used to state the properties *)

(** [p in s]: [p] occurs in [s] as a contiguous piece. *)
Definition contains (p s : pystr) : Prop := ∃ pre post, s = pre ++ p ++ post.

(** [s.startswith(p)] *)
Fixpoint starts_with (p s : pystr) : bool :=
  match p, s with
  | [], _ => true
  | _ :: _, [] => false
  | c :: p', d :: s' => (c =? d) && starts_with p' s'
  end.

Fixpoint containsb (p s : pystr) : bool :=
  starts_with p s ||
  match s with
  | [] => false
  | _ :: s' => containsb p s'
  end.

(** Number of positions of [s] at which [p] starts. *)
Fixpoint count_occurrences (p s : pystr) : nat :=
  let here := if starts_with p s then 1%nat else 0%nat in
  match s with
  | [] => here
  | _ :: s' => (here + count_occurrences p s')%nat
  end.

(** Number of occurrences of the character [c] in [s]. *)
Fixpoint count_char (c : char) (s : pystr) : nat :=
  match s with
  | [] => 0%nat
  | d :: s' => if d =? c then S (count_char c s') else count_char c s'
  end.

(** What [escape_nl2br] writes for one character of its input. *)
Definition escape_char (c : char) : pystr :=
  if c =? ch_nl then lit "<br>"
  else if c =? ch_amp then lit "&amp;"
  else if c =? ch_lt then lit "&lt;"
  else if c =? ch_gt then lit "&gt;"
  else if c =? dquote then lit "&quot;"
  else if c =? ch_squote then lit "&#x27;"
  else [c].

(** Reads back the first input character from an output of
    [escape_nl2br]; it shows that the escaping loses nothing. *)
Definition unescape_head (s : pystr) : option (char * pystr) :=
  if starts_with (lit "<br>") s then Some (ch_nl, drop 4 s)
  else if starts_with (lit "&amp;") s then Some (ch_amp, drop 5 s)
  else if starts_with (lit "&lt;") s then Some (ch_lt, drop 4 s)
  else if starts_with (lit "&gt;") s then Some (ch_gt, drop 4 s)
  else if starts_with (lit "&quot;") s then Some (dquote, drop 6 s)
  else if starts_with (lit "&#x27;") s then Some (ch_squote, drop 6 s)
  else match s with
       | [] => None
       | c :: r => Some (c, r)
       end.

(** The part of [s] before its first ASCII space. *)
Fixpoint before_first_space (s : pystr) : pystr :=
  match s with
  | [] => []
  | c :: r => if c =? ch_space then [] else c :: before_first_space r
  end.

(** The key tuple of a group. *)
Definition group_key (g : Group) : Key := (g_issue g, g_title g, g_link g).

(** The keys of a list, each once, in the order of first appearance. *)
Fixpoint first_occurrences (ks : list Key) : list Key :=
  match ks with
  | [] => []
  | k :: ks' => k :: filter (λ k', k' ≠ k) (first_occurrences ks')
  end.

(** The rows of an article, in input order. *)
Definition rows_of (k : Key) (rows : list dict) : list dict :=
  filter (λ r, row_key r = k) rows.

(** The group of an article: its key, the strip colour of its first row
    and one entry per row, in input order. *)
Definition group_of (rows : list dict) (k : Key) : Group :=
  {| g_issue := k.1.1;
     g_title := k.1.2;
     g_link := k.2;
     g_strip_color :=
       match rows_of k rows with
       | r :: _ => or_else (dlookup r "strip_color") (lit "#c7d2fe")
       | [] => lit "#c7d2fe"
       end;
     g_entries := row_entry <$> rows_of k rows |}.

(** The grouping as the specification states it: one group per distinct
    key, in order of first appearance. *)
Definition group_spec (rows : list dict) : list Group :=
  group_of rows <$> first_occurrences (row_key <$> rows).

(** The buckets the loop holds after the rows [pre]. *)
Definition buckets_after (pre : list dict) : odict :=
  (λ k, (k, group_of pre k)) <$> first_occurrences (row_key <$> pre).

(** Buckets as a table: the list of keys, and the group of each key. *)
Definition tab (G : Key → Group) (K : list Key) : odict := (λ k, (k, G k)) <$> K.

Definition upd (G : Key → Group) (k : Key) (g : Group) : Key → Group :=
  λ k', if decide (k' = k) then g else G k'.

(** The position of the first occurrence of [k] in [ks] (the length of
    [ks] when there is none). *)
Fixpoint first_index (k : Key) (ks : list Key) : nat :=
  match ks with
  | [] => 0%nat
  | k' :: ks' => if decide (k' = k) then 0%nat else S (first_index k ks')
  end.

(** A row with an empty monogram whose name is not empty but consists of
    whitespace only. *)
Definition blank_name (r : dict) : bool :=
  negb (nonempty (dget r "monogram" []))
  && nonempty (dget r "name" [])
  && negb (nonempty (strip (dget r "name" []))).

(** ** Sanity checks of the model *)

Example lit_mei : lit "名" = [ch_mei].
Proof. reflexivity. Qed.

Example lit_quote : lit "a`b　c©📅" = [97; 34; 98; 12288; 99; 169; 128197].
Proof. reflexivity. Qed.

Example auto_monogram_yamada : auto_monogram (Some (lit "山田 太郎")) = Ok (lit "山").
Proof. reflexivity. Qed.

Example auto_monogram_spaces : auto_monogram (Some (lit "  ")) = Raise IndexError.
Proof. reflexivity. Qed.

Example split_ex : re_split_spaces (lit " a　 b ") = [[]; lit "a"; lit "b"; []].
Proof. reflexivity. Qed.

Example strip_ex : strip (lit "  a b  ") = lit "a b".
Proof. reflexivity. Qed.

Example escape_ex : escape_nl2br (Some (10 :: lit "<a&'`>")) = lit "<br>&lt;a&amp;&#x27;&quot;&gt;".
Proof. reflexivity. Qed.

Example str_of_int_ex : str_of_int 120 = lit "120" /\ str_of_int (-7) = lit "-7".
Proof. split; reflexivity. Qed.

Example color_cycle_ex : color_cycle 3 = lit "#a5b4fc" /\ color_cycle (-1) = lit "#a5b4fc".
Proof. split; reflexivity. Qed.

(** ** Facts about the built-ins *)

Lemma replace1_app old new s t :
  replace1 old new (s ++ t) = replace1 old new s ++ replace1 old new t.
Proof. unfold replace1. apply flat_map_app. Qed.

Lemma html_escape_app s t : html_escape (s ++ t) = html_escape s ++ html_escape t.
Proof. unfold html_escape. by rewrite !replace1_app. Qed.

Ltac case_char c n :=
  let E := fresh "E" in
  destruct (N.eqb_spec c n) as [E | E]; [subst c | ].

Ltac neqb :=
  repeat match goal with
  | H : ?c ≠ ?n |- context [?c =? ?n] => rewrite (proj2 (N.eqb_neq c n) H)
  | H : ?c ≠ ?n |- context [?n =? ?c] => rewrite (proj2 (N.eqb_neq n c) (not_eq_sym H))
  end.

(** The special characters of [escape_nl2br], one case each, and the
    remaining characters. *)
Ltac escape_cases c :=
  case_char c 10; [ | case_char c 38; [ | case_char c 60; [ | case_char c 62;
    [ | case_char c 34; [ | case_char c 39 ]]]]].

Lemma escape_one c : replace1 ch_nl (lit "<br>") (html_escape [c]) = escape_char c.
Proof.
  escape_cases c; try reflexivity.
  unfold escape_char, html_escape, replace1, ch_nl, ch_amp, ch_lt, ch_gt, dquote, ch_squote.
  cbn [flat_map app]. neqb. cbn [flat_map app]. neqb. cbn [flat_map app]. neqb.
  cbn [flat_map app]. neqb. cbn [flat_map app]. neqb. cbn [flat_map app]. neqb.
  reflexivity.
Qed.

Lemma escape_nl2br_flat_map s : escape_nl2br (Some s) = flat_map escape_char s.
Proof.
  unfold escape_nl2br. induction s as [|c s IH]; [reflexivity|].
  change (c :: s) with ([c] ++ s).
  rewrite html_escape_app, replace1_app, IH, escape_one. reflexivity.
Qed.

Ltac unfold_chars := unfold ch_nl, ch_amp, ch_lt, ch_gt, dquote, ch_squote in *.

Lemma escape_char_other c :
  c ≠ 10 → c ≠ 38 → c ≠ 60 → c ≠ 62 → c ≠ 34 → c ≠ 39 → escape_char c = [c].
Proof. intros. unfold escape_char. unfold_chars. by neqb. Qed.

Ltac eval_lits :=
  repeat match goal with
  | |- context [lit ?s] => let v := eval vm_compute in (lit s) in change (lit s) with v
  end.

Lemma unescape_head_escape c r : unescape_head (escape_char c ++ r) = Some (c, r).
Proof.
  escape_cases c; [ reflexivity .. | ].
  rewrite escape_char_other by assumption. unfold unescape_head. unfold_chars. eval_lits.
  cbn [app starts_with]. by neqb.
Qed.

Lemma escape_nl2br_inj s t : escape_nl2br (Some s) = escape_nl2br (Some t) → s = t.
Proof.
  rewrite !escape_nl2br_flat_map. revert t.
  induction s as [|c s IH]; intros [|d t] H; cbn [flat_map] in H.
  - done.
  - apply (f_equal unescape_head) in H. by rewrite unescape_head_escape in H.
  - apply (f_equal unescape_head) in H. by rewrite unescape_head_escape in H.
  - apply (f_equal unescape_head) in H. rewrite !unescape_head_escape in H.
    injection H as -> H. f_equal. by apply IH.
Qed.

Lemma lstrip_head s c t : lstrip s = c :: t → is_whitespace c = false.
Proof.
  induction s as [|d s IH]; cbn [lstrip]; [done|].
  destruct (is_whitespace d) eqn:E; [done|]. by intros [= <- _].
Qed.

Lemma rstrip_cons c s : is_whitespace c = false → ∃ t, rstrip (c :: s) = c :: t.
Proof. intros E. cbn [rstrip]. rewrite E. destruct (rstrip s); eauto. Qed.

Lemma strip_head s c t : strip s = c :: t → is_whitespace c = false.
Proof.
  unfold strip. destruct (lstrip s) as [|d u] eqn:E; [done|].
  pose proof (lstrip_head _ _ _ E) as Hd.
  destruct (rstrip_cons d u Hd) as [t' ->]. by intros [= <- _].
Qed.

Lemma is_sep_whitespace c : is_sep c = true → is_whitespace c = true.
Proof.
  unfold is_sep, ch_space, ch_ideographic_space.
  intros [->%N.eqb_eq | ->%N.eqb_eq]%orb_true_iff; reflexivity.
Qed.

Lemma split_go_first acc s :
  ∃ tok rest, split_go false acc s = (rev acc ++ tok) :: rest.
Proof.
  revert acc. induction s as [|c s IH]; intros acc; cbn [split_go].
  - exists [], []. by rewrite app_nil_r.
  - destruct (is_sep c).
    + exists [], (split_go true [] s). by rewrite app_nil_r.
    + destruct (IH (c :: acc)) as (tok & rest & ->).
      exists (c :: tok), rest. cbn [rev]. by rewrite <-app_assoc.
Qed.

Lemma re_split_spaces_first c s :
  is_sep c = false → ∃ tok rest, re_split_spaces (c :: s) = (c :: tok) :: rest.
Proof.
  intros E. unfold re_split_spaces. cbn [split_go]. rewrite E.
  destruct (split_go_first [c] s) as (tok & rest & ->). by exists tok, rest.
Qed.

Lemma auto_monogram_trimmed name c t :
  strip name = c :: t → auto_monogram (Some name) = Ok [c].
Proof.
  intros E. pose proof (strip_head _ _ _ E) as Hc.
  assert (is_sep c = false) as Hs.
  { destruct (is_sep c) eqn:Hs; [|done]. apply is_sep_whitespace in Hs. congruence. }
  unfold auto_monogram. destruct name as [|n0 name]; [done|].
  rewrite E. destruct (re_split_spaces_first c t Hs) as (tok & rest & ->). done.
Qed.

Lemma auto_monogram_blank name :
  name ≠ [] → strip name = [] → auto_monogram (Some name) = Raise IndexError.
Proof.
  intros Hne E. unfold auto_monogram. destruct name; [done|]. by rewrite E.
Qed.

Lemma before_first_space_head c s :
  c ≠ ch_space → head (before_first_space (c :: s)) = Some c.
Proof. intros H. cbn [before_first_space]. by neqb. Qed.

(** ** The text sanitizer *)

Ltac eval_escape :=
  repeat match goal with
  | |- context [escape_char (?k)] =>
      let v := eval vm_compute in (escape_char k) in change (escape_char k) with v
  end.

(** A count over [escape_nl2br]'s output, by induction on the input:
    the goal relates counts on [flat_map escape_char text] to counts on
    [text]. *)
Ltac count_out text :=
  unfold_chars; eval_lits;
  induction text as [|c text IH]; [reflexivity|];
  cbn [flat_map]; revert IH; generalize (flat_map escape_char text); intros r IH;
  escape_cases c;
  [ eval_escape; cbn; lia ..
  | rewrite escape_char_other by assumption;
    cbn [app count_char count_occurrences starts_with]; neqb; cbn [andb]; lia ].

Lemma count_br_out text :
  count_occurrences (lit "<br>") (flat_map escape_char text) = count_char ch_nl text.
Proof. count_out text. Qed.

Lemma count_amp_entity_out text :
  count_occurrences (lit "&amp;") (flat_map escape_char text) = count_char ch_amp text.
Proof. count_out text. Qed.

Lemma count_lt_entity_out text :
  count_occurrences (lit "&lt;") (flat_map escape_char text) = count_char ch_lt text.
Proof. count_out text. Qed.

Lemma count_gt_entity_out text :
  count_occurrences (lit "&gt;") (flat_map escape_char text) = count_char ch_gt text.
Proof. count_out text. Qed.

Lemma count_quot_entity_out text :
  count_occurrences (lit "&quot;") (flat_map escape_char text) = count_char dquote text.
Proof. count_out text. Qed.

Lemma count_apos_entity_out text :
  count_occurrences (lit "&#x27;") (flat_map escape_char text) = count_char ch_squote text.
Proof. count_out text. Qed.

Lemma count_lt_out text :
  count_char ch_lt (flat_map escape_char text) = count_char ch_nl text.
Proof. count_out text. Qed.

Lemma count_gt_out text :
  count_char ch_gt (flat_map escape_char text) = count_char ch_nl text.
Proof. count_out text. Qed.

Lemma count_nl_out text : count_char ch_nl (flat_map escape_char text) = 0%nat.
Proof. count_out text. Qed.

Lemma count_dquote_out text : count_char dquote (flat_map escape_char text) = 0%nat.
Proof. count_out text. Qed.

Lemma count_squote_out text : count_char ch_squote (flat_map escape_char text) = 0%nat.
Proof. count_out text. Qed.

Lemma count_amp_out text :
  count_char ch_amp (flat_map escape_char text)
  = (count_char ch_amp text + count_char ch_lt text + count_char ch_gt text
     + count_char dquote text + count_char ch_squote text)%nat.
Proof. count_out text. Qed.

(** C3. [escape_nl2br] returns the empty string for an absent text and
    never raises.  For every text, its output is the concatenation of one
    piece per input character: the line-break marker for a newline, the
    entity for each of the five HTML-significant characters, the character
    itself otherwise.  Hence the output has exactly one line-break marker
    per newline of the input; every angle bracket of the output belongs to
    such a marker (there are as many of each as newlines, so none comes
    from the input); no newline, double quote or single quote is left; and
    every ampersand of the output starts the entity of one escaped input
    character. *)
Theorem escape_nl2br_sanitizes :
  escape_nl2br None = [] ∧
  ∀ text : pystr,
    let out := escape_nl2br (Some text) in
    out = flat_map escape_char text
    ∧ count_occurrences (lit "<br>") out = count_char ch_nl text
    ∧ count_char ch_lt out = count_char ch_nl text
    ∧ count_char ch_gt out = count_char ch_nl text
    ∧ count_char ch_nl out = 0%nat
    ∧ count_char dquote out = 0%nat
    ∧ count_char ch_squote out = 0%nat
    ∧ count_occurrences (lit "&amp;") out = count_char ch_amp text
    ∧ count_occurrences (lit "&lt;") out = count_char ch_lt text
    ∧ count_occurrences (lit "&gt;") out = count_char ch_gt text
    ∧ count_occurrences (lit "&quot;") out = count_char dquote text
    ∧ count_occurrences (lit "&#x27;") out = count_char ch_squote text
    ∧ count_char ch_amp out
      = (count_char ch_amp text + count_char ch_lt text + count_char ch_gt text
         + count_char dquote text + count_char ch_squote text)%nat.
Proof.
  split; [reflexivity|]. intros text out. subst out.
  rewrite escape_nl2br_flat_map.
  repeat split;
    auto using count_br_out, count_lt_out, count_gt_out, count_nl_out,
      count_dquote_out, count_squote_out, count_amp_entity_out,
      count_lt_entity_out, count_gt_entity_out, count_quot_entity_out,
      count_apos_entity_out, count_amp_out.
Qed.

(** ** The monogram deriver *)

Lemma auto_monogram_cases name :
  auto_monogram name = Raise IndexError
  ∨ ∃ c, is_whitespace c = false ∧ auto_monogram name = Ok [c].
Proof.
  destruct name as [[|n0 name]|]; [right; by exists ch_mei| |right; by exists ch_mei].
  destruct (strip (n0 :: name)) as [|c t] eqn:E.
  - left. by apply auto_monogram_blank.
  - right. exists c. split; [by eapply strip_head|by eapply auto_monogram_trimmed].
Qed.

(** C6, as stated, fails: the name [" Taro"] contains a space, the
    substring before its first space is empty and has no first character,
    and [auto_monogram] returns ["T"]. *)
Lemma auto_monogram_leading_space :
  let name := lit " Taro" in
  ch_space ∈ name
  ∧ before_first_space name = []
  ∧ auto_monogram (Some name) = Ok (lit "T")
  ∧ ¬ ∃ c, head (before_first_space name) = Some c ∧ auto_monogram (Some name) = Ok [c].
Proof.
  cbv zeta. split; [|split; [|split]].
  - eval_lits. unfold ch_space. constructor.
  - reflexivity.
  - reflexivity.
  - intros (c & H & _). discriminate H.
Qed.

(** C6, amended.  For an empty or absent name [auto_monogram] returns
    the placeholder ["名"].  For every name whose whitespace-trimmed form
    is not empty it returns exactly one character [c], the first character
    of the trimmed name: the first token of the split of the trimmed name
    on runs of ASCII or full-width spaces is not empty and begins with
    [c], and [c] is the first character of the part of the trimmed name
    before its first space; when the name itself does not begin with a
    whitespace character, [c] is also the first character of the part of
    the name before its first space. *)
Theorem auto_monogram_spec :
  auto_monogram None = Ok (lit "名")
  ∧ auto_monogram (Some []) = Ok (lit "名")
  ∧ ∀ (name : pystr) (c : char) (t : pystr),
      strip name = c :: t →
      auto_monogram (Some name) = Ok [c]
      ∧ (∃ tok rest, re_split_spaces (strip name) = (c :: tok) :: rest)
      ∧ head (before_first_space (strip name)) = Some c
      ∧ (∀ c0 t0, name = c0 :: t0 → is_whitespace c0 = false →
           head (before_first_space name) = Some c).
Proof.
  split; [reflexivity|]. split; [reflexivity|].
  intros name c t E.
  pose proof (strip_head _ _ _ E) as Hc.
  assert (is_sep c = false) as Hs.
  { destruct (is_sep c) eqn:Hs; [|done]. apply is_sep_whitespace in Hs. congruence. }
  assert (c ≠ ch_space) as Hsp.
  { intros ->. discriminate Hs. }
  split; [by eapply auto_monogram_trimmed|].
  split; [rewrite E; by apply re_split_spaces_first|].
  split; [rewrite E; by apply before_first_space_head|].
  intros c0 t0 -> H0.
  unfold strip in E. cbn [lstrip] in E. rewrite H0 in E.
  destruct (rstrip_cons c0 t0 H0) as [t' E']. rewrite E' in E.
  injection E as -> _. by apply before_first_space_head.
Qed.

Lemma auto_monogram_spec_witness :
  strip (lit "山田 太郎") = lit "山田 太郎"
  ∧ auto_monogram (Some (lit "山田 太郎")) = Ok (lit "山")
  ∧ head (before_first_space (lit "山田 太郎")) = Some ch_yama.
Proof.
  destruct (proj2 (proj2 auto_monogram_spec) (lit "山田 太郎") ch_yama (lit "田 太郎"))
    as (Hmono & _ & _ & Hname); [reflexivity|].
  split; [reflexivity|]. split; [exact Hmono|].
  apply (Hname ch_yama (lit "田 太郎")); reflexivity.
Defined.

(** ** Monogram overrides *)

Lemma strip_single c : is_whitespace c = false → strip [c] = [c].
Proof. intros E. unfold strip. cbn [lstrip]. rewrite E. cbn [rstrip]. by rewrite E. Qed.

Lemma render_card_mono_derived name :
  (m ← auto_monogram (Some name); Ok (or_else (Some (slice1 (strip m))) (lit "名")))
  = auto_monogram (Some name).
Proof.
  destruct (auto_monogram_cases (Some name)) as [-> | (c & Hc & ->)]; [done|].
  cbn [mbind result_bind]. by rewrite strip_single.
Qed.

Lemma render_card_grouped_mono_derived name :
  (m ← auto_monogram (Some name); Ok (or_else (Some (slice1 m)) (lit "名")))
  = auto_monogram (Some name).
Proof.
  by destruct (auto_monogram_cases (Some name)) as [-> | (c & Hc & ->)].
Qed.

(** C7, as stated, fails in [render_card]: the override [" A"] is not
    empty and its first character is a space, yet the card shows ["A"];
    the override [" "] is not empty, yet the card shows the placeholder. *)
Lemma render_card_mono_trims_override :
  render_card_mono (Some (lit " A")) (lit "B") = Ok (lit "A")
  ∧ slice1 (lit " A") = lit " "
  ∧ render_card_mono (Some (lit " ")) (lit "B") = Ok (lit "名")
  ∧ slice1 (lit " ") = lit " ".
Proof. repeat split; reflexivity. Qed.

(** C7, amended.  In both card renderers a non-empty override takes
    precedence over the derivation from the name: the result does not
    depend on the name and no derivation is attempted.  An override that
    does not begin with whitespace is truncated to its first character in
    both renderers.  [render_card] trims the override first: it shows the
    first character of the whitespace-trimmed override, and the
    placeholder ["名"] when the override consists of whitespace only.  An
    empty or absent override falls back to the derivation from the name in
    both renderers: the result is exactly that of [auto_monogram]. *)
Theorem monogram_override_precedence :
  (∀ (m name name' : pystr), m ≠ [] →
     render_card_mono (Some m) name = render_card_mono (Some m) name')
  ∧ (∀ (e e' : dict) (m : pystr),
     dlookup e "monogram" = Some m → dlookup e' "monogram" = Some m → m ≠ [] →
     render_card_grouped_mono e = render_card_grouped_mono e'
     ∧ ∃ c, render_card_grouped_mono e = Ok c)
  ∧ (∀ (c : char) (t name : pystr), is_whitespace c = false →
     render_card_mono (Some (c :: t)) name = Ok [c])
  ∧ (∀ (e : dict) (c : char) (t : pystr),
     dlookup e "monogram" = Some (c :: t) → is_whitespace c = false →
     render_card_grouped_mono e = Ok [c])
  ∧ (∀ (m name : pystr), m ≠ [] →
     render_card_mono (Some m) name
     = Ok (if nonempty (strip m) then slice1 (strip m) else lit "名"))
  ∧ (∀ name : pystr,
     render_card_mono (Some []) name = auto_monogram (Some name)
     ∧ render_card_mono None name = auto_monogram (Some name))
  ∧ (∀ e : dict, dlookup e "monogram" = Some [] ∨ dlookup e "monogram" = None →
     render_card_grouped_mono e = auto_monogram (Some (dget e "name" []))).
Proof.
  split; [|split; [|split; [|split; [|split; [|split]]]]].
  - by intros [|c t] name name' Hm.
  - intros e e' [|c t] He He' Hm; [done|].
    unfold render_card_grouped_mono. rewrite He, He'. cbn [or_elseM mbind result_bind].
    eauto.
  - intros c t name Hc. unfold render_card_mono. cbn [or_elseM mbind result_bind].
    destruct (rstrip_cons c t Hc) as [t' E].
    unfold strip. cbn [lstrip]. by rewrite Hc, E.
  - intros e c t He Hc. unfold render_card_grouped_mono. by rewrite He.
  - intros [|c t] name Hm; [done|].
    unfold render_card_mono. cbn [or_elseM mbind result_bind].
    by destruct (strip (c :: t)).
  - intros name. split; apply render_card_mono_derived.
  - intros e [He | He]; unfold render_card_grouped_mono; rewrite He;
      apply render_card_grouped_mono_derived.
Qed.

Lemma monogram_override_precedence_witness :
  render_card_mono (Some (lit "YT")) (lit "山田 太郎")
  = render_card_mono (Some (lit "YT")) (lit " ")
  ∧ render_card_grouped_mono {[ "name" := lit "山田 太郎"; "monogram" := lit "YT" ]}
    = render_card_grouped_mono {[ "name" := lit " "; "monogram" := lit "YT" ]}
  ∧ render_card_mono (Some (lit "YT")) (lit "山田 太郎") = Ok (lit "Y")
  ∧ render_card_grouped_mono {[ "name" := lit "山田 太郎"; "monogram" := lit "YT" ]}
    = Ok (lit "Y")
  ∧ render_card_mono (Some (lit " Y")) (lit "山田 太郎") = Ok (lit "Y")
  ∧ render_card_grouped_mono {[ "name" := lit "山田 太郎"; "monogram" := [] ]}
    = Ok (lit "山").
Proof.
  destruct monogram_override_precedence as (H1 & H2 & H3 & H4 & H5 & _ & H7).
  split; [|split; [|split; [|split; [|split]]]].
  - apply (H1 (lit "YT")). discriminate.
  - apply (H2 _ _ (lit "YT")); [reflexivity | reflexivity | discriminate].
  - apply (H3 89 (lit "T")). reflexivity.
  - apply (H4 _ 89 (lit "T")); reflexivity.
  - rewrite (H5 (lit " Y")); [reflexivity | discriminate].
  - rewrite H7; [reflexivity | left; reflexivity].
Defined.

(** C9 fails on the code.  With the same name ["B"], the override [" A"]
    is shown as ["A"] by [render_card] and as [" "] by
    [render_card_grouped]; the override [" "] is shown as the placeholder
    ["名"] by [render_card] and as [" "] by [render_card_grouped]. *)
Theorem monogram_renderers_differ :
  render_card_mono (Some (lit " A")) (lit "B") = Ok (lit "A")
  ∧ render_card_grouped_mono {[ "name" := lit "B"; "monogram" := lit " A" ]} = Ok (lit " ")
  ∧ render_card_mono (Some (lit " ")) (lit "B") = Ok (lit "名")
  ∧ render_card_grouped_mono {[ "name" := lit "B"; "monogram" := lit " " ]} = Ok (lit " ").
Proof. repeat split; reflexivity. Qed.

(** ** Pieces of a rendered string *)

Lemma Ok_inj {A} (a b : A) : Ok a = Ok b → a = b.
Proof. by intros [= ->]. Qed.


Lemma contains_app_r p s t : contains p t → contains p (s ++ t).
Proof. intros (pre & post & ->). exists (s ++ pre), post. by rewrite <-app_assoc. Qed.

Lemma starts_with_spec p s : starts_with p s = true ↔ ∃ post, s = p ++ post.
Proof.
  revert s. induction p as [|c p IH]; intros s; cbn [starts_with].
  - split; [intros _; by exists s|done].
  - destruct s as [|d s].
    + split; [done|]. by intros [post H].
    + rewrite andb_true_iff, N.eqb_eq, IH. split.
      * intros [-> [post ->]]. by exists post.
      * intros [post [= -> ->]]. eauto.
Qed.

Lemma containsb_spec p s : containsb p s = true ↔ contains p s.
Proof.
  induction s as [|d s IH]; cbn [containsb]; rewrite orb_true_iff, starts_with_spec.
  - split.
    + intros [[post H] | H]; [|done]. by exists [], post.
    + intros ([|? pre] & post & H); [left; by exists post|done].
  - rewrite IH. split.
    + intros [[post H] | (pre & post & ->)]; [by exists [], post|].
      by exists (d :: pre), post.
    + intros ([|e pre] & post & H); [left; by exists post|].
      right. injection H as -> ->. by exists pre, post.
Qed.

(** A piece of a right-nested concatenation, found by its first factor;
    factors are compared as written, without unfolding. *)
Ltac find_contains :=
  lazymatch goal with
  | |- contains ?p (?b ++ _) =>
      first
        [ constr_eq p b; exists []; eexists; reflexivity
        | lazymatch p with
          | ?a ++ _ => constr_eq a b; exists []; eexists; rewrite <-?app_assoc; reflexivity
          end
        | apply contains_app_r; find_contains ]
  end.

(** Literals are turned into variables first, so that no proof compares
    the texts of two templates. *)
Ltac abstract_lits :=
  repeat match goal with |- context [lit ?s] => generalize (lit s); intro end.

Ltac find_suffix :=
  lazymatch goal with
  | |- ?p `suffix_of` ?s =>
      first
        [ constr_eq p s; reflexivity
        | apply suffix_app_r; find_suffix ]
  end.

Lemma lstrip_id s : Forall (λ c, is_whitespace c = false) s → lstrip s = s.
Proof. intros [|c s' Hc _]; [done|]. cbn [lstrip]. by rewrite Hc. Qed.

Lemma rstrip_id s : Forall (λ c, is_whitespace c = false) s → rstrip s = s.
Proof.
  induction 1 as [|c s Hc _ IH]; [done|]. cbn [rstrip]. rewrite IH, Hc. by destruct s.
Qed.

Lemma strip_id s : Forall (λ c, is_whitespace c = false) s → strip s = s.
Proof. intros H. unfold strip. by rewrite lstrip_id, rstrip_id. Qed.

Lemma uint_chars_no_whitespace d : Forall (λ c, is_whitespace c = false) (uint_chars d).
Proof. induction d; cbn [uint_chars]; by constructor. Qed.

Lemma str_of_int_no_whitespace n : Forall (λ c, is_whitespace c = false) (str_of_int n).
Proof.
  destruct n; cbn [str_of_int]; repeat constructor; apply uint_chars_no_whitespace.
Qed.

Lemma strip_article n :
  strip (lit "#article" ++ str_of_int n) = lit "#article" ++ str_of_int n.
Proof.
  apply strip_id, Forall_app. split; [|apply str_of_int_no_whitespace].
  eval_lits. by repeat constructor.
Qed.

(** ** The call-to-action link *)

(** Both renderers end a card with the call-to-action anchor, whose
    [href] is the local [_link_url], and the fixed end of the template. *)
Lemma render_card_cta
    idx issue_label article_title comment_text commenter_name commenter_org
    link_url strip_color monogram comment_bar_color commenter_bio html :
  render_card idx issue_label article_title comment_text commenter_name
    commenter_org link_url strip_color monogram comment_bar_color commenter_bio
  = Ok html →
  (lit "<a href=`" ++ strip (or_else link_url (lit "#article" ++ str_of_int (idx + 1)))
     ++ lit "`" ++ render_card_tail) `suffix_of` html.
Proof.
  unfold render_card.
  destruct (render_card_mono monogram commenter_name) as [_mono|]; [|done].
  cbn [mbind result_bind]. intros <-%Ok_inj.
  generalize (strip (or_else link_url (lit "#article" ++ str_of_int (idx + 1)))).
  intros target. abstract_lits. find_suffix.
Qed.

Lemma render_card_grouped_cta
    idx issue_label article_title link_url strip_color entries html :
  render_card_grouped idx issue_label article_title link_url strip_color entries
  = Ok html →
  (lit "<a href=`" ++ strip (or_else link_url (lit "#article" ++ str_of_int (idx + 1)))
     ++ lit "`" ++ render_card_grouped_tail) `suffix_of` html.
Proof.
  unfold render_card_grouped.
  destruct (mapM render_card_grouped_mono entries) as [monograms|]; [|done].
  cbn [mbind result_bind].
  destruct (mapM render_card_grouped_block entries) as [comment_blocks|]; [|done].
  cbn [mbind result_bind]. intros <-%Ok_inj.
  generalize (strip (or_else link_url (lit "#article" ++ str_of_int (idx + 1)))).
  intros target. abstract_lits. find_suffix.
Qed.

(** The link target when the link is empty or absent, and when the
    script has put the positional anchor in its place. *)
Lemma link_target_default idx link_url :
  link_url = None ∨ link_url = Some []
  ∨ link_url = Some (lit "#article" ++ str_of_int (idx + 1)) →
  strip (or_else link_url (lit "#article" ++ str_of_int (idx + 1)))
  = lit "#article" ++ str_of_int (idx + 1).
Proof.
  intros H.
  assert (or_else link_url (lit "#article" ++ str_of_int (idx + 1))
          = lit "#article" ++ str_of_int (idx + 1)) as ->; [|apply strip_article].
  destruct H as [-> | [-> | ->]]; [done|done|].
  generalize (str_of_int (idx + 1)). intros s. by eval_lits.
Qed.

Lemma mapM_lookup {A B} (f : A → result B) (l : list A) (ys : list B) i x y :
  mapM f l = Ok ys → l !! i = Some x → ys !! i = Some y → f x = Ok y.
Proof.
  revert ys i. induction l as [|a l IH]; intros ys i; [done|].
  cbn [mapM]. destruct (f a) as [b|] eqn:Ea; [|done]. cbn [mbind result_bind].
  destruct (mapM f l) as [bs|]; [|done]. cbn [mbind result_bind].
  intros <-%Ok_inj. destruct i as [|i]; cbn [lookup list_lookup].
  - by intros [= <-] [= <-].
  - by apply IH.
Qed.

Lemma enumerate_lookup {A} (l : list A) i x :
  l !! i = Some x → enumerate l !! i = Some (Z.of_nat i, x).
Proof. intros H. unfold enumerate. by rewrite list_lookup_imap, H. Qed.

(** C8.  Whatever the other arguments, when the link is empty or absent
    the card rendered at position [idx] ends with the call-to-action
    anchor whose [href] is ["#article"] followed by [idx + 1] in decimal,
    then the fixed end of the card; this holds for [render_card] and for
    [render_card_grouped].  In the script, without grouping, the card of
    the row at position [i] whose link is empty or absent has the target
    ["#article"] followed by [i + 1]; with grouping, so has the card of the
    group at position [i] whose link is empty.  At position 2 the target
    is ["#article3"]. *)
Theorem empty_link_positional_anchor :
  (∀ idx issue_label article_title comment_text commenter_name commenter_org
     link_url strip_color monogram comment_bar_color commenter_bio html,
     link_url = None ∨ link_url = Some [] →
     render_card idx issue_label article_title comment_text commenter_name
       commenter_org link_url strip_color monogram comment_bar_color commenter_bio
     = Ok html →
     (lit "<a href=`" ++ (lit "#article" ++ str_of_int (idx + 1)) ++ lit "`"
        ++ render_card_tail) `suffix_of` html)
  ∧ (∀ idx issue_label article_title link_url strip_color entries html,
     link_url = None ∨ link_url = Some [] →
     render_card_grouped idx issue_label article_title link_url strip_color entries
     = Ok html →
     (lit "<a href=`" ++ (lit "#article" ++ str_of_int (idx + 1)) ++ lit "`"
        ++ render_card_grouped_tail) `suffix_of` html)
  ∧ (∀ (cards_data : list dict) cards (i : nat) c card,
     cards_html_list false cards_data = Ok cards →
     cards_data !! i = Some c → cards !! i = Some card →
     dlookup c "link" = None ∨ dlookup c "link" = Some [] →
     (lit "<a href=`" ++ (lit "#article" ++ str_of_int (Z.of_nat i + 1)) ++ lit "`"
        ++ render_card_tail) `suffix_of` card)
  ∧ (∀ (cards_data : list dict) groups cards (i : nat) g card,
     group_cards_by_article cards_data = Ok groups →
     cards_html_list true cards_data = Ok cards →
     groups !! i = Some g → cards !! i = Some card →
     g_link g = [] →
     (lit "<a href=`" ++ (lit "#article" ++ str_of_int (Z.of_nat i + 1)) ++ lit "`"
        ++ render_card_grouped_tail) `suffix_of` card)
  ∧ lit "#article" ++ str_of_int (2 + 1) = lit "#article3".
Proof.
  split; [|split; [|split; [|split; [|reflexivity]]]].
  - intros * Hlink Hrun. apply render_card_cta in Hrun.
    rewrite link_target_default in Hrun by tauto. exact Hrun.
  - intros * Hlink Hrun. apply render_card_grouped_cta in Hrun.
    rewrite link_target_default in Hrun by tauto. exact Hrun.
  - intros * Hrun Hc Hcard Hlink. unfold cards_html_list in Hrun.
    pose proof (mapM_lookup _ _ _ _ _ _ Hrun (enumerate_lookup _ _ _ Hc) Hcard) as Hi.
    cbv beta iota in Hi. apply render_card_cta in Hi.
    rewrite link_target_default in Hi; [exact Hi|].
    unfold dget. destruct Hlink as [-> | ->]; cbn [default]; tauto.
  - intros * Hgroups Hrun Hg Hcard Hlink. unfold cards_html_list in Hrun.
    rewrite Hgroups in Hrun. cbn [mbind result_bind] in Hrun.
    pose proof (mapM_lookup _ _ _ _ _ _ Hrun (enumerate_lookup _ _ _ Hg) Hcard) as Hi.
    cbv beta iota in Hi. apply render_card_grouped_cta in Hi.
    rewrite link_target_default in Hi; [exact Hi|]. rewrite Hlink. tauto.
Qed.

Lemma empty_link_positional_anchor_witness :
  ∃ card grouped,
    render_card 2 (lit "第3742号") (lit "A") (lit "c") (lit "Tanaka") [] (Some [])
      None None (lit "#2563eb") None = Ok card
    ∧ render_card_grouped 2 (lit "第3742号") (lit "A") None None
        [ {[ "name" := lit "Tanaka"; "comment" := lit "c" ]} ] = Ok grouped
    ∧ (lit "<a href=`" ++ (lit "#article" ++ str_of_int (2 + 1)) ++ lit "`"
         ++ render_card_tail) `suffix_of` card
    ∧ (lit "<a href=`" ++ (lit "#article" ++ str_of_int (2 + 1)) ++ lit "`"
         ++ render_card_grouped_tail) `suffix_of` grouped.
Proof.
  destruct empty_link_positional_anchor as (Hcard & Hgrouped & _).
  destruct (render_card 2 (lit "第3742号") (lit "A") (lit "c") (lit "Tanaka") [] (Some [])
              None None (lit "#2563eb") None) as [card|] eqn:Ec;
    [|vm_compute in Ec; discriminate Ec].
  destruct (render_card_grouped 2 (lit "第3742号") (lit "A") None None
              [ {[ "name" := lit "Tanaka"; "comment" := lit "c" ]} ]) as [grouped|] eqn:Eg;
    [|vm_compute in Eg; discriminate Eg].
  exists card, grouped. split; [reflexivity|]. split; [reflexivity|]. split.
  - exact (Hcard _ _ _ _ _ _ _ _ _ _ _ _ (or_intror eq_refl) Ec).
  - exact (Hgrouped _ _ _ _ _ _ _ (or_introl eq_refl) Eg).
Defined.

(** ** The email assembler *)

Lemma render_email_full_body
    title_text badge_text header_title delivery_text description_text cards :
  contains (join (lit "<div style=`height:18px;line-height:18px;`>&nbsp;</div>") cards)
    (render_email_full title_text badge_text header_title delivery_text
       description_text cards).
Proof. unfold render_email_full. abstract_lits. find_contains. Qed.

(** C5, as stated, fails for [render_email_full]: called with an empty
    list of cards it leaves the body cell empty and writes no
    placeholder. *)
Lemma render_email_full_no_placeholder :
  ¬ contains no_cards (render_email_full [] [] [] [] [] [])
  ∧ contains (lit "<td style=`padding:24px;`>
            
          </td>") (render_email_full [] [] [] [] [] []).
Proof.
  split.
  - rewrite <-containsb_spec. by vm_compute.
  - apply containsb_spec. by vm_compute.
Qed.

(** C5, amended.  [render_email_full] writes no placeholder itself; the
    script substitutes the one-element list holding the placeholder
    comment for an empty [cards_html_list] before it calls
    [render_email_full].  So for every choice of header fields the
    document [full_html] built from an empty [cards_html_list] is the
    rendering of that one-element list and contains the placeholder; an
    empty [cards_data] gives such a document, with and without grouping. *)
Theorem full_html_placeholder :
  ∀ title_text badge_text header_title delivery_text description_text,
    full_html title_text badge_text header_title delivery_text description_text []
    = render_email_full title_text badge_text header_title delivery_text
        description_text [no_cards]
    ∧ contains no_cards
        (full_html title_text badge_text header_title delivery_text description_text [])
    ∧ ∀ use_grouping,
        pipeline use_grouping title_text badge_text header_title delivery_text
          description_text []
        = Ok (full_html title_text badge_text header_title delivery_text
                description_text []).
Proof.
  intros. split; [reflexivity|]. split.
  - apply (render_email_full_body _ _ _ _ _ [no_cards]).
  - by intros [].
Qed.

(** ** The row grouper *)

Lemma elem_of_first_occurrences k ks : k ∈ first_occurrences ks ↔ k ∈ ks.
Proof.
  induction ks as [|k0 ks IH]; cbn [first_occurrences]; [done|].
  rewrite !elem_of_cons, list_elem_of_filter, IH.
  destruct (decide (k = k0)); intuition congruence.
Qed.

Lemma NoDup_first_occurrences ks : NoDup (first_occurrences ks).
Proof.
  induction ks as [|k0 ks IH]; cbn [first_occurrences]; constructor.
  - rewrite list_elem_of_filter. intuition congruence.
  - by apply NoDup_filter.
Qed.

Lemma first_occurrences_snoc ks k :
  first_occurrences (ks ++ [k])
  = if decide (k ∈ ks) then first_occurrences ks else first_occurrences ks ++ [k].
Proof.
  induction ks as [|k0 ks IH]; cbn [app first_occurrences].
  - rewrite decide_False by apply not_elem_of_nil. done.
  - rewrite IH. destruct (decide (k = k0)) as [->|Hne].
    + rewrite (decide_True (P := k0 ∈ k0 :: ks)) by left.
      destruct (decide (k0 ∈ ks)); [done|].
      rewrite filter_app, filter_cons_False, filter_nil, app_nil_r by intuition congruence. done.
    + destruct (decide (k ∈ ks)) as [Hin|Hin].
      * rewrite decide_True by (by right). done.
      * rewrite decide_False by (rewrite elem_of_cons; intuition congruence).
        rewrite filter_app, filter_cons_True by done. done.
Qed.

Lemma rows_of_snoc k pre r :
  rows_of k (pre ++ [r]) = if decide (row_key r = k) then rows_of k pre ++ [r] else rows_of k pre.
Proof.
  unfold rows_of. rewrite filter_app. destruct (decide (row_key r = k)).
  - by rewrite filter_cons_True.
  - by rewrite filter_cons_False, app_nil_r.
Qed.

Lemma rows_of_nil k rows : k ∉ row_key <$> rows → rows_of k rows = [].
Proof.
  unfold rows_of. induction rows as [|r rows IH]; [done|].
  rewrite fmap_cons, not_elem_of_cons. intros [Hne Hk].
  rewrite filter_cons_False by congruence. auto.
Qed.

Lemma rows_of_nonempty k rows : k ∈ row_key <$> rows → rows_of k rows ≠ [].
Proof.
  intros (r & -> & Hr)%list_elem_of_fmap E.
  assert (r ∈ rows_of (row_key r) rows) as Hin by (by apply list_elem_of_filter).
  rewrite E in Hin. by apply not_elem_of_nil in Hin.
Qed.

Lemma tab_keys G K : (tab G K).*1 = K.
Proof. unfold tab. rewrite <-list_fmap_compose. apply list_fmap_id. Qed.

Lemma tab_values G K : (tab G K).*2 = G <$> K.
Proof. unfold tab. by rewrite <-list_fmap_compose. Qed.

Lemma tab_ext G G' K : (∀ k, k ∈ K → G k = G' k) → tab G K = tab G' K.
Proof.
  intros H. unfold tab. apply list_fmap_ext. intros i k Hk%list_elem_of_lookup_2.
  by rewrite H.
Qed.

Lemma od_contains_tab k G K : od_contains k (tab G K) = bool_decide (k ∈ K).
Proof. unfold od_contains. by rewrite tab_keys. Qed.

Lemma od_get_tab k G K : k ∈ K → od_get k (tab G K) = Ok (G k).
Proof.
  induction K as [|k0 K IH]; [by intros ?%not_elem_of_nil|].
  cbn [tab fmap list_fmap od_get]. destruct (decide (k0 = k)) as [->|Hne]; [done|].
  rewrite elem_of_cons. intros [->|Hin]; [done|]. by apply IH.
Qed.

Lemma od_replace_tab k g G K :
  NoDup K → od_replace k g (tab G K) = tab (upd G k g) K.
Proof.
  induction 1 as [|k0 K Hk0 HK IH]; [done|].
  cbn [tab fmap list_fmap od_replace]. unfold upd at 1.
  destruct (decide (k0 = k)) as [->|Hne].
  - f_equal. apply tab_ext. intros k' Hk'. unfold upd.
    rewrite decide_False; [done|]. by intros ->.
  - f_equal. apply IH.
Qed.

Lemma od_set_tab_old k g G K :
  NoDup K → k ∈ K → od_set k g (tab G K) = tab (upd G k g) K.
Proof.
  intros HK Hk. unfold od_set. rewrite od_contains_tab, bool_decide_true by done.
  by apply od_replace_tab.
Qed.

Lemma od_set_tab_new k g G K :
  k ∉ K → od_set k g (tab G K) = tab (upd G k g) (K ++ [k]).
Proof.
  intros Hk. unfold od_set. rewrite od_contains_tab, bool_decide_false by done.
  unfold tab at 2. rewrite fmap_app. cbn [fmap list_fmap]. unfold upd at 2.
  rewrite decide_True by done. f_equal.
  apply tab_ext. intros k' Hk'. unfold upd. rewrite decide_False; [done|]. by intros ->.
Qed.

Lemma upd_same G k g : upd G k g k = g.
Proof. unfold upd. by rewrite decide_True. Qed.

Lemma nonempty_or_else x d : nonempty d = true → nonempty (or_else x d) = true.
Proof. by destruct x as [[|? ?]|]. Qed.

Lemma group_of_strip_color rows k : nonempty (g_strip_color (group_of rows k)) = true.
Proof.
  unfold group_of. cbn [g_strip_color]. destruct (rows_of k rows); [done|].
  by apply nonempty_or_else.
Qed.

(** The group of a key after one more row. *)
Lemma group_of_snoc pre r k :
  group_of (pre ++ [r]) k
  = if decide (k = row_key r)
    then if decide (row_key r ∈ row_key <$> pre)
         then with_entries (group_of pre k) (g_entries (group_of pre k) ++ [row_entry r])
         else {| g_issue := strip (dget r "issue" []);
                 g_title := strip (dget r "title" []);
                 g_link := strip (dget r "link" []);
                 g_strip_color := or_else (dlookup r "strip_color") (lit "#c7d2fe");
                 g_entries := [row_entry r] |}
    else group_of pre k.
Proof.
  unfold group_of. rewrite rows_of_snoc.
  destruct (decide (k = row_key r)) as [->|Hne].
  - rewrite decide_True by done.
    destruct (decide (row_key r ∈ row_key <$> pre)) as [Hin|Hin].
    + unfold with_entries. cbn [g_issue g_title g_link g_strip_color g_entries].
      rewrite fmap_app. apply rows_of_nonempty in Hin.
      by destruct (rows_of (row_key r) pre).
    + by rewrite (rows_of_nil _ _ Hin).
  - by rewrite decide_False.
Qed.

Lemma group_step_spec pre r :
  group_step (buckets_after pre) r = Ok (buckets_after (pre ++ [r])).
Proof.
  unfold buckets_after. rewrite fmap_app, fmap_cons, fmap_nil, first_occurrences_snoc.
  fold (tab (group_of pre) (first_occurrences (row_key <$> pre))).
  set (K := first_occurrences (row_key <$> pre)).
  assert (NoDup K) as HK by apply NoDup_first_occurrences.
  unfold group_step. rewrite od_contains_tab.
  destruct (decide (row_key r ∈ row_key <$> pre)) as [Hin|Hin].
  - assert (row_key r ∈ K) as HinK by (by apply elem_of_first_occurrences).
    rewrite bool_decide_true by done. cbn [negb].
    rewrite od_get_tab by done. cbn [mbind result_bind].
    rewrite od_set_tab_old by done.
    rewrite od_get_tab by done. cbn [mbind result_bind]. rewrite upd_same.
    unfold with_entries at 1. cbn [g_strip_color].
    rewrite group_of_strip_color. cbn [negb]. f_equal.
    apply tab_ext. intros k Hk. rewrite group_of_snoc. unfold upd.
    destruct (decide (k = row_key r)) as [->|]; [|done]. by rewrite decide_True.
  - assert (row_key r ∉ K) as HinK by (unfold K; by rewrite elem_of_first_occurrences).
    assert (NoDup (K ++ [row_key r])) as HK'.
    { apply NoDup_app. split; [done|]. split; [|apply NoDup_singleton].
      intros k Hk ->%list_elem_of_singleton. done. }
    assert (row_key r ∈ K ++ [row_key r]) as Hlast.
    { apply elem_of_app. right. by apply list_elem_of_singleton. }
    rewrite bool_decide_false by done. cbn [negb].
    rewrite od_set_tab_new by done.
    rewrite od_get_tab by done. cbn [mbind result_bind]. rewrite upd_same.
    rewrite od_set_tab_old by done.
    rewrite od_get_tab by done. cbn [mbind result_bind]. rewrite upd_same.
    unfold with_entries. cbn [g_strip_color g_entries g_issue g_title g_link app].
    rewrite nonempty_or_else by done. cbn [negb]. f_equal.
    apply tab_ext. intros k Hk. rewrite group_of_snoc. unfold upd.
    destruct (decide (k = row_key r)) as [->|]; [|done]. by rewrite decide_False.
Qed.

Lemma foldM_group_step rows pre :
  foldM group_step rows (buckets_after pre) = Ok (buckets_after (pre ++ rows)).
Proof.
  revert pre. induction rows as [|r rows IH]; intros pre; cbn [foldM].
  - by rewrite app_nil_r.
  - rewrite group_step_spec. cbn [mbind result_bind].
    rewrite IH. by rewrite <-app_assoc.
Qed.

(** The code computes the grouping of the specification. *)
Lemma group_cards_by_article_spec rows :
  group_cards_by_article rows = Ok (group_spec rows).
Proof.
  unfold group_cards_by_article.
  change (@nil (Key * Group)) with (buckets_after []).
  rewrite foldM_group_step. cbn [mbind result_bind app].
  unfold buckets_after. fold (tab (group_of rows) (first_occurrences (row_key <$> rows))).
  by rewrite tab_values.
Qed.

Lemma group_key_group_of rows k : group_key (group_of rows k) = k.
Proof. by destruct k as [[? ?] ?]. Qed.

Lemma group_keys_spec rows :
  group_key <$> group_spec rows = first_occurrences (row_key <$> rows).
Proof.
  unfold group_spec. rewrite <-list_fmap_compose.
  rewrite <-(list_fmap_id (first_occurrences _)) at 2.
  apply list_fmap_ext. intros i k _. apply group_key_group_of.
Qed.

Lemma sum_indicator (x : Key) K :
  NoDup K →
  sum_list ((λ k, if decide (x = k) then 1%nat else 0%nat) <$> K)
  = if decide (x ∈ K) then 1%nat else 0%nat.
Proof.
  induction 1 as [|k K Hk HK IH]; [done|].
  rewrite fmap_cons. cbn [sum_list_with id]. rewrite IH.
  repeat case_decide; subst; rewrite ?elem_of_cons in *; try done; intuition congruence.
Qed.

Lemma sum_rows_of_cons r rows K :
  sum_list ((λ k, length (rows_of k (r :: rows))) <$> K)
  = (sum_list ((λ k, if decide (row_key r = k) then 1%nat else 0%nat) <$> K)
     + sum_list ((λ k, length (rows_of k rows)) <$> K))%nat.
Proof.
  induction K as [|k K IH]; [done|]. rewrite !fmap_cons. cbn [sum_list_with id]. rewrite IH.
  unfold rows_of at 1. destruct (decide (row_key r = k)).
  - rewrite filter_cons_True by done. cbn [length]. cbv iota. unfold rows_of. lia.
  - rewrite filter_cons_False by done. cbv iota. unfold rows_of. lia.
Qed.

Lemma sum_rows_of rows K :
  NoDup K → row_key <$> rows ⊆ K →
  sum_list ((λ k, length (rows_of k rows)) <$> K) = length rows.
Proof.
  intros HK. induction rows as [|r rows IH]; intros Hsub.
  - clear. induction K as [|k K IHK]; [done|]. rewrite fmap_cons. cbn [sum_list_with id].
    by rewrite IHK.
  - rewrite fmap_cons in Hsub.
    assert (row_key r ∈ K) as Hr by (apply Hsub; left).
    assert (row_key <$> rows ⊆ K) as Hrows by (intros k Hk; apply Hsub; by right).
    rewrite sum_rows_of_cons, sum_indicator, decide_True, IH by done. done.
Qed.

Lemma entries_total rows :
  sum_list ((length ∘ g_entries) <$> group_spec rows) = length rows.
Proof.
  unfold group_spec. rewrite <-list_fmap_compose.
  rewrite <-(sum_rows_of rows (first_occurrences (row_key <$> rows))).
  - f_equal. apply list_fmap_ext. intros i k _. cbn. by rewrite length_fmap.
  - apply NoDup_first_occurrences.
  - intros k Hk. by apply elem_of_first_occurrences.
Qed.

Lemma rows_of_all k rows : (∀ r, r ∈ rows → row_key r = k) → rows_of k rows = rows.
Proof.
  unfold rows_of. induction rows as [|r rows IH]; intros H; [done|].
  rewrite filter_cons_True by (apply H; left). f_equal. apply IH.
  intros r' Hr'. apply H. by right.
Qed.

Lemma first_occurrences_constant k ks :
  ks ≠ [] → (∀ k', k' ∈ ks → k' = k) → first_occurrences ks = [k].
Proof.
  intros Hne H. destruct ks as [|k0 ks]; [done|]. clear Hne.
  assert (k0 = k) as -> by (apply H; left).
  cbn [first_occurrences]. f_equal.
  assert (∀ k', k' ∈ first_occurrences ks → k' = k) as H'.
  { intros k' Hk'. apply (proj1 (elem_of_first_occurrences _ _)) in Hk'. apply H. by right. }
  induction (first_occurrences ks) as [|k1 l IH]; [done|].
  rewrite filter_cons_False.
  - apply IH. intros k' Hk'. apply H'. by right.
  - intros Hk1. apply Hk1, H'. left.
Qed.

Lemma filter_lookup_order {A} (P : A → Prop) `{∀ x, Decision (P x)} (l : list A) i j x y :
  (i < j)%nat → filter P l !! i = Some x → filter P l !! j = Some y →
  ∃ a b, (a < b)%nat ∧ l !! a = Some x ∧ l !! b = Some y.
Proof.
  revert i j. induction l as [|c l IH]; intros i j Hij Hi Hj; [done|].
  destruct (decide (P c)) as [Hc|Hc].
  - rewrite filter_cons_True in Hi, Hj by done.
    destruct j as [|j]; [lia|]. cbn [lookup list_lookup] in Hj.
    destruct i as [|i].
    + injection Hi as ->.
      apply list_elem_of_lookup_2, list_elem_of_filter in Hj as [_ Hy].
      apply list_elem_of_lookup_1 in Hy as [b Hb].
      exists 0%nat, (S b). split; [lia|done].
    + cbn [lookup list_lookup] in Hi.
      destruct (IH i j) as (a & b & Hab & Ha & Hb); [lia|done|done|].
      exists (S a), (S b). split; [lia|done].
  - rewrite filter_cons_False in Hi, Hj by done.
    destruct (IH i j) as (a & b & Hab & Ha & Hb); [lia|done|done|].
    exists (S a), (S b). split; [lia|done].
Qed.

(** The keys of [first_occurrences] are ordered by first appearance. *)
Lemma first_occurrences_order ks i j ki kj :
  (i < j)%nat →
  first_occurrences ks !! i = Some ki → first_occurrences ks !! j = Some kj →
  (first_index ki ks < first_index kj ks)%nat.
Proof.
  revert i j. induction ks as [|k0 ks IH]; intros i j Hij Hi Hj; [done|].
  cbn [first_occurrences] in Hi, Hj. cbn [first_index].
  destruct j as [|j]; [lia|]. cbn [lookup list_lookup] in Hj.
  assert (kj ≠ k0) as Hkj.
  { by apply list_elem_of_lookup_2, list_elem_of_filter in Hj as [? _]. }
  rewrite (decide_False (P := k0 = kj)) by done.
  destruct i as [|i].
  - injection Hi as ->. rewrite decide_True by done. lia.
  - cbn [lookup list_lookup] in Hi.
    assert (ki ≠ k0) as Hki.
    { by apply list_elem_of_lookup_2, list_elem_of_filter in Hi as [? _]. }
    rewrite decide_False by done.
    destruct (filter_lookup_order (λ k', k' ≠ k0) (first_occurrences ks) i j ki kj)
      as (a & b & Hab & Ha & Hb); [lia|done|done|].
    apply ->Nat.succ_lt_mono. by apply (IH a b).
Qed.

(** C2.  [group_cards_by_article] returns, for every list of rows, the
    grouping of the specification: one group per distinct trimmed key
    (issue, title, link), in the order of first appearance of the keys (of
    two groups, the earlier one has the key that appears first among the
    rows);
    the keys of the groups are pairwise distinct and are exactly the keys
    of the rows; the entries of a group are the entries of the rows that
    have its key, all of them and in input order, so two rows fall into
    the same group exactly when their trimmed triples are equal; the
    entries of all groups together are as many as the rows; and rows that
    all share one key give a single group with one entry per row. *)
Theorem group_cards_by_article_partition (rows : list dict) :
  ∃ groups,
    group_cards_by_article rows = Ok groups
    ∧ groups = group_spec rows
    ∧ group_key <$> groups = first_occurrences (row_key <$> rows)
    ∧ (∀ i j gi gj, (i < j)%nat → groups !! i = Some gi → groups !! j = Some gj →
         (first_index (group_key gi) (row_key <$> rows)
          < first_index (group_key gj) (row_key <$> rows))%nat)
    ∧ NoDup (group_key <$> groups)
    ∧ (∀ k, k ∈ group_key <$> groups ↔ k ∈ row_key <$> rows)
    ∧ (∀ g, g ∈ groups →
         g_entries g = row_entry <$> filter (λ r, row_key r = group_key g) rows)
    ∧ sum_list ((length ∘ g_entries) <$> groups) = length rows
    ∧ (∀ k, rows ≠ [] → (∀ r, r ∈ rows → row_key r = k) →
         ∃ g, groups = [g] ∧ group_key g = k
              ∧ g_entries g = row_entry <$> rows
              ∧ length (g_entries g) = length rows).
Proof.
  exists (group_spec rows).
  split; [apply group_cards_by_article_spec|]. split; [done|].
  split; [apply group_keys_spec|].
  split.
  { intros i j gi gj Hij Hi Hj.
    apply (first_occurrences_order _ i j); [done| |];
      rewrite <-group_keys_spec, list_lookup_fmap; by rewrite ?Hi, ?Hj. }
  split; [rewrite group_keys_spec; apply NoDup_first_occurrences|].
  split; [intros k; rewrite group_keys_spec; apply elem_of_first_occurrences|].
  split; [|split; [apply entries_total|]].
  - intros g (k & -> & _)%list_elem_of_fmap. by rewrite group_key_group_of.
  - intros k Hne Hall. exists (group_of rows k).
    assert (first_occurrences (row_key <$> rows) = [k]) as Hk.
    { apply first_occurrences_constant; [by destruct rows|].
      intros k' (r & -> & Hr)%list_elem_of_fmap. by apply Hall. }
    unfold group_spec. rewrite Hk. split; [done|].
    split; [apply group_key_group_of|].
    unfold group_of. cbn [g_entries]. rewrite rows_of_all by done.
    split; [done|apply length_fmap].
Qed.

Lemma group_cards_by_article_partition_witness :
  let row1 : dict :=
    {[ "issue" := lit "第3742号"; "title" := lit "A"; "link" := lit "#a";
       "name" := lit "Tanaka" ]} in
  let row2 : dict :=
    {[ "issue" := lit "第3742号 "; "title" := lit " A"; "link" := lit "#a";
       "name" := lit "Sato" ]} in
  let row3 : dict :=
    {[ "issue" := lit "第3743号"; "title" := lit "B"; "link" := lit "#b";
       "name" := lit "Suzuki" ]} in
  (∃ g, group_cards_by_article [row1; row2] = Ok [g]
        ∧ g_entries g = [row_entry row1; row_entry row2]
        ∧ length (g_entries g) = 2%nat)
  ∧ (∃ ga gb, group_cards_by_article [row1; row3; row2] = Ok [ga; gb]
        ∧ g_entries ga = [row_entry row1; row_entry row2]
        ∧ g_entries gb = [row_entry row3]
        ∧ (first_index (group_key ga) (row_key <$> [row1; row3; row2])
           < first_index (group_key gb) (row_key <$> [row1; row3; row2]))%nat).
Proof.
  intros row1 row2 row3. split.
  - destruct (group_cards_by_article_partition [row1; row2])
      as (groups & Hrun & _ & _ & _ & _ & _ & _ & _ & Hone).
    destruct (Hone (lit "第3742号", lit "A", lit "#a")) as (g & -> & _ & Hentries & Hlen).
    + discriminate.
    + intros r [->| [->| []%not_elem_of_nil]%elem_of_cons]%elem_of_cons;
        vm_compute; reflexivity.
    + exists g. split; [exact Hrun|]. split; [exact Hentries|exact Hlen].
  - destruct (group_cards_by_article_partition [row1; row3; row2])
      as (groups & Hrun & Hspec & _ & Horder & _).
    assert (groups = [group_of [row1; row3; row2] (lit "第3742号", lit "A", lit "#a");
                      group_of [row1; row3; row2] (lit "第3743号", lit "B", lit "#b")])
      as Hgroups by (rewrite Hspec; vm_compute; reflexivity).
    rewrite Hgroups in Hrun, Horder. eexists _, _. split; [exact Hrun|].
    assert (row_key row1 = (lit "第3742号", lit "A", lit "#a")) as K1
      by (vm_compute; reflexivity).
    assert (row_key row2 = (lit "第3742号", lit "A", lit "#a")) as K2
      by (vm_compute; reflexivity).
    assert (row_key row3 = (lit "第3743号", lit "B", lit "#b")) as K3
      by (vm_compute; reflexivity).
    assert (row_key row1 ≠ row_key row3) as K13 by (vm_compute; discriminate).
    rewrite K1, K3 in K13.
    unfold group_of, rows_of. cbn [g_entries].
    split; [|split].
    + rewrite filter_cons_True, filter_cons_False, filter_cons_True by congruence.
      reflexivity.
    + rewrite filter_cons_False, filter_cons_True, filter_cons_False by congruence.
      reflexivity.
    + apply (Horder 0%nat 1%nat); [lia|reflexivity|reflexivity].
Defined.

(** C10.  Every group returned by [group_cards_by_article] has at least
    one entry, for every list of rows. *)
Theorem groups_have_entries (rows : list dict) :
  ∃ groups,
    group_cards_by_article rows = Ok groups
    ∧ Forall (λ g, g_entries g ≠ []) groups.
Proof.
  exists (group_spec rows). split; [apply group_cards_by_article_spec|].
  apply Forall_forall. intros g (k & -> & Hk)%list_elem_of_fmap.
  apply (proj1 (elem_of_first_occurrences _ _)), rows_of_nonempty in Hk.
  unfold group_of. cbn [g_entries]. by destruct (rows_of k rows).
Qed.

(** ** The summary badge *)

Lemma size_list_to_set_fmap_inj (f : pystr → pystr) (l : list pystr) :
  (∀ x y, f x = f y → x = y) →
  size (list_to_set (f <$> l) : gset pystr) = size (list_to_set l : gset pystr).
Proof.
  intros Hf. induction l as [|x l IH]; [done|].
  rewrite fmap_cons. cbn [list_to_set].
  destruct (decide (x ∈ l)) as [Hx|Hx].
  - assert (f x ∈ f <$> l) as Hfx by (by apply list_elem_of_fmap_2).
    rewrite !(subseteq_union_1_L {[_]}); [done| |];
      apply singleton_subseteq_l; by apply elem_of_list_to_set.
  - assert (f x ∉ f <$> l) as Hfx.
    { intros (y & Hy & Hin)%list_elem_of_fmap. apply Hf in Hy as ->. done. }
    rewrite !size_union, !size_singleton, IH; [done| |];
      apply disjoint_singleton_l; by rewrite elem_of_list_to_set.
Qed.

Lemma len_set_commentators (entries : list dict) :
  len_set (map (λ e, escape_nl2br (Some (dget e "name" []))) entries)
  = Z.of_nat (size (list_to_set ((λ e, dget e "name" []) <$> entries) : gset pystr)).
Proof.
  unfold len_set. f_equal.
  replace (map (λ e, escape_nl2br (Some (dget e "name" []))) entries)
    with ((λ n, escape_nl2br (Some n)) <$> ((λ e, dget e "name" []) <$> entries)).
  - apply size_list_to_set_fmap_inj. intros x y. apply escape_nl2br_inj.
  - rewrite <-list_fmap_compose. reflexivity.
Qed.

(** C4.  Whenever [render_card_grouped] returns a card, the card
    contains the badge text made of the number of entries, ["件 / "], the
    number of distinct entry names and ["名"], where the distinct names
    are counted as the size of the set of the names of the entries (the
    empty string when an entry has none), compared as strings. *)
Theorem grouped_badge_counts :
  ∀ idx issue_label article_title link_url strip_color (entries : list dict) html,
    render_card_grouped idx issue_label article_title link_url strip_color entries
    = Ok html →
    contains
      (str_of_int (Z.of_nat (length entries)) ++ lit "件 / "
       ++ str_of_int
            (Z.of_nat (size (list_to_set ((λ e, dget e "name" []) <$> entries) : gset pystr)))
       ++ lit "名")
      html.
Proof.
  intros *. unfold render_card_grouped.
  destruct (mapM render_card_grouped_mono entries) as [monograms|]; [|done].
  cbn [mbind result_bind].
  destruct (mapM render_card_grouped_block entries) as [comment_blocks|]; [|done].
  cbn [mbind result_bind]. intros <-%Ok_inj.
  rewrite len_set_commentators. unfold len.
  abstract_lits. find_contains.
Qed.

Lemma grouped_badge_counts_witness :
  let entries : list dict :=
    [ {[ "name" := lit "Tanaka"; "comment" := lit "c1" ]};
      {[ "name" := lit "Sato"; "comment" := lit "c2" ]} ] in
  ∃ html,
    render_card_grouped 0 (lit "第3742号") (lit "A") (Some (lit "#a")) None entries = Ok html
    ∧ contains (lit "2件 / 2名") html.
Proof.
  intros entries.
  destruct (render_card_grouped 0 (lit "第3742号") (lit "A") (Some (lit "#a")) None entries)
    as [html|] eqn:E; [|vm_compute in E; discriminate E].
  exists html. split; [reflexivity|].
  pose proof (grouped_badge_counts _ _ _ _ _ _ _ E) as H.
  assert (str_of_int (Z.of_nat (length entries)) ++ lit "件 / "
          ++ str_of_int
               (Z.of_nat (size (list_to_set ((λ e, dget e "name" []) <$> entries)
                                : gset pystr)))
          ++ lit "名" = lit "2件 / 2名") as Hbadge by (vm_compute; reflexivity).
  rewrite Hbadge in H. exact H.
Defined.

(** ** Where the pipeline raises *)

Lemma mapM_Ok {A B} (f : A → result B) (l : list A) :
  (∀ x, x ∈ l → ∃ y, f x = Ok y) → ∃ ys, mapM f l = Ok ys.
Proof.
  induction l as [|a l IH]; intros H; [by exists []|].
  destruct (H a) as [b Hb]; [left|].
  destruct IH as [bs Hbs]; [intros x Hx; apply H; by right|].
  exists (b :: bs). cbn [mapM]. by rewrite Hb, Hbs.
Qed.

Lemma mapM_Raise {A B} (f : A → result B) (l : list A) (e : exn) :
  (∀ x, x ∈ l → f x = Raise e ∨ ∃ y, f x = Ok y) →
  (∃ x, x ∈ l ∧ f x = Raise e) →
  mapM f l = Raise e.
Proof.
  induction l as [|a l IH]; intros Hall (x & Hx & Hfx).
  { by apply not_elem_of_nil in Hx. }
  cbn [mapM]. destruct (Hall a) as [Ha | [b Ha]]; [left|by rewrite Ha|]. rewrite Ha.
  cbn [mbind result_bind]. apply elem_of_cons in Hx as [-> | Hx]; [congruence|].
  rewrite IH; [done| |by exists x]. intros z Hz. apply Hall. by right.
Qed.

Lemma auto_monogram_outcome name :
  auto_monogram (Some name)
  = if nonempty name && negb (nonempty (strip name))
    then Raise IndexError
    else Ok (match strip name with c :: _ => [c] | [] => lit "名" end).
Proof.
  destruct name as [|n0 name]; [done|]. cbn [nonempty andb].
  destruct (strip (n0 :: name)) as [|c t] eqn:E; cbn [nonempty negb].
  - by apply auto_monogram_blank.
  - by eapply auto_monogram_trimmed.
Qed.

Lemma render_card_mono_outcome (c : dict) :
  if blank_name c
  then render_card_mono (Some (dget c "monogram" [])) (dget c "name" []) = Raise IndexError
  else ∃ m, render_card_mono (Some (dget c "monogram" [])) (dget c "name" []) = Ok m.
Proof.
  unfold blank_name, render_card_mono.
  destruct (dget c "monogram" []) as [|m0 m]; cbn [nonempty negb andb or_elseM].
  - rewrite auto_monogram_outcome.
    destruct (nonempty (dget c "name" []) && negb (nonempty (strip (dget c "name" []))));
      [done|]. cbn [mbind result_bind]. eauto.
  - cbn [mbind result_bind]. eauto.
Qed.

Lemma row_entry_monogram r : dlookup (row_entry r) "monogram" = Some (dget r "monogram" []).
Proof. unfold dlookup, row_entry. by simplify_map_eq. Qed.

Lemma row_entry_name r : dget (row_entry r) "name" [] = dget r "name" [].
Proof. unfold dget at 1, dlookup, row_entry. by simplify_map_eq. Qed.

Lemma render_card_grouped_mono_outcome (r : dict) :
  if blank_name r
  then render_card_grouped_mono (row_entry r) = Raise IndexError
  else ∃ m, render_card_grouped_mono (row_entry r) = Ok m.
Proof.
  unfold blank_name, render_card_grouped_mono.
  rewrite row_entry_monogram, row_entry_name.
  destruct (dget r "monogram" []) as [|m0 m]; cbn [nonempty negb andb or_elseM].
  - rewrite auto_monogram_outcome.
    destruct (nonempty (dget r "name" []) && negb (nonempty (strip (dget r "name" []))));
      [done|]. cbn [mbind result_bind]. eauto.
  - cbn [mbind result_bind]. eauto.
Qed.

Lemma render_card_outcome idx (c : dict) :
  let run :=
    render_card idx
      (dget c "issue" []) (dget c "title" []) (dget c "comment" [])
      (dget c "name" []) (dget c "org" [])
      (Some (dget c "link" (lit "#article" ++ str_of_int (idx + 1))))
      (Some (or_else (dlookup c "strip_color") (color_cycle idx)))
      (Some (dget c "monogram" []))
      (dget c "comment_bar_color" (lit "#2563eb"))
      (Some (dget c "bio" [])) in
  if blank_name c then run = Raise IndexError else ∃ html, run = Ok html.
Proof.
  cbv zeta. unfold render_card.
  pose proof (render_card_mono_outcome c) as H.
  destruct (blank_name c).
  - by rewrite H.
  - destruct H as [m ->]. cbn [mbind result_bind]. eauto.
Qed.

Lemma render_card_grouped_block_outcome (e : dict) :
  match render_card_grouped_mono e with
  | Ok _ => ∃ block, render_card_grouped_block e = Ok block
  | Raise err => render_card_grouped_block e = Raise err
  end.
Proof.
  unfold render_card_grouped_block.
  destruct (render_card_grouped_mono e); cbn [mbind result_bind]; eauto.
Qed.

Lemma render_card_grouped_outcome idx issue_label article_title link_url strip_color
    (rs : list dict) :
  let run :=
    render_card_grouped idx issue_label article_title link_url strip_color
      (row_entry <$> rs) in
  (∀ r, r ∈ rs → blank_name r = false) → ∃ html, run = Ok html.
Proof.
  cbv zeta. intros Hall. unfold render_card_grouped.
  destruct (mapM_Ok render_card_grouped_mono (row_entry <$> rs)) as [monograms ->].
  { intros e (r & -> & Hr)%list_elem_of_fmap.
    pose proof (render_card_grouped_mono_outcome r) as H. by rewrite Hall in H. }
  cbn [mbind result_bind].
  destruct (mapM_Ok render_card_grouped_block (row_entry <$> rs)) as [blocks ->].
  { intros e (r & -> & Hr)%list_elem_of_fmap.
    pose proof (render_card_grouped_mono_outcome r) as H. rewrite Hall in H by done.
    destruct H as [m Hm].
    pose proof (render_card_grouped_block_outcome (row_entry r)) as Hb.
    by rewrite Hm in Hb. }
  cbn [mbind result_bind]. eauto.
Qed.

Lemma render_card_grouped_raises idx issue_label article_title link_url strip_color
    (rs : list dict) :
  (∃ r, r ∈ rs ∧ blank_name r = true) →
  render_card_grouped idx issue_label article_title link_url strip_color
    (row_entry <$> rs) = Raise IndexError.
Proof.
  intros (r & Hr & Hblank). unfold render_card_grouped.
  rewrite (mapM_Raise render_card_grouped_mono (row_entry <$> rs) IndexError); [done| |].
  - intros e (r' & -> & _)%list_elem_of_fmap.
    pose proof (render_card_grouped_mono_outcome r') as H.
    destruct (blank_name r'); [by left|by right].
  - exists (row_entry r). split; [by apply list_elem_of_fmap_2|].
    pose proof (render_card_grouped_mono_outcome r) as H. by rewrite Hblank in H.
Qed.

(** The pipeline returns a document unless some row has an empty
    monogram and a non-empty name made of whitespace only; then it raises
    [IndexError]. *)
Lemma pipeline_outcome
    use_grouping title_text badge_text header_title delivery_text description_text
    (cards_data : list dict) :
  ((∀ r, r ∈ cards_data → blank_name r = false) →
   ∃ doc, pipeline use_grouping title_text badge_text header_title delivery_text
            description_text cards_data = Ok doc)
  ∧ ((∃ r, r ∈ cards_data ∧ blank_name r = true) →
     pipeline use_grouping title_text badge_text header_title delivery_text
       description_text cards_data = Raise IndexError).
Proof.
  unfold pipeline, cards_html_list. destruct use_grouping.
  - rewrite group_cards_by_article_spec. cbn [mbind result_bind]. split.
    + intros Hall.
      match goal with |- context [mapM ?f ?l] => destruct (mapM_Ok f l) as [cards ->] end.
      * intros [idx g] (i & g' & [= -> ->] & Hg)%elem_of_lookup_imap.
        apply list_elem_of_lookup_2, list_elem_of_fmap in Hg as (k & -> & _).
        apply render_card_grouped_outcome.
        intros r [_ Hr]%list_elem_of_filter. by apply Hall.
      * cbn [mbind result_bind]. eauto.
    + intros (r & Hr & Hblank).
      match goal with |- context [mapM ?f ?l] => rewrite (mapM_Raise f l IndexError) end;
        [done| |].
      * intros [idx g] (i & g' & [= -> ->] & Hg)%elem_of_lookup_imap.
        apply list_elem_of_lookup_2, list_elem_of_fmap in Hg as (k & -> & _).
        unfold group_of at 5. cbn [g_entries].
        destruct (decide (Exists (λ r', blank_name r' = true) (rows_of k cards_data)))
          as [Hex|Hnex].
        -- left. apply render_card_grouped_raises. by apply Exists_exists.
        -- right. apply render_card_grouped_outcome. intros r' Hr'.
           destruct (blank_name r') eqn:E; [|done]. destruct Hnex.
           apply Exists_exists. eauto.
      * assert (row_key r ∈ first_occurrences (row_key <$> cards_data)) as Hk.
        { apply elem_of_first_occurrences. by apply list_elem_of_fmap_2. }
        apply list_elem_of_lookup_1 in Hk as [i Hi].
        exists (Z.of_nat i, group_of cards_data (row_key r)). split.
        -- apply elem_of_lookup_imap. exists i, (group_of cards_data (row_key r)).
           split; [done|]. unfold group_spec. by rewrite list_lookup_fmap, Hi.
        -- apply render_card_grouped_raises. exists r. split; [|done].
           by apply list_elem_of_filter.
  - split.
    + intros Hall.
      match goal with |- context [mapM ?f ?l] => destruct (mapM_Ok f l) as [cards ->] end.
      * intros [idx c] (i & c' & [= -> ->] & Hc)%elem_of_lookup_imap.
        apply list_elem_of_lookup_2 in Hc.
        pose proof (render_card_outcome (Z.of_nat i) c') as H.
        cbv zeta in H. by rewrite Hall in H.
      * cbn [mbind result_bind]. eauto.
    + intros (r & Hr & Hblank).
      match goal with |- context [mapM ?f ?l] => rewrite (mapM_Raise f l IndexError) end;
        [done| |].
      * intros [idx c] (i & c' & [= -> ->] & Hc)%elem_of_lookup_imap.
        pose proof (render_card_outcome (Z.of_nat i) c') as H. cbv zeta in H.
        destruct (blank_name c'); [by left|by right].
      * apply list_elem_of_lookup_1 in Hr as [i Hi].
        exists (Z.of_nat i, r). split.
        -- apply elem_of_lookup_imap. by exists i, r.
        -- pose proof (render_card_outcome (Z.of_nat i) r) as H. cbv zeta in H.
           by rewrite Hblank in H.
Qed.

(** ** Totality of the pipeline *)

(** C1 fails on the code.  A row whose name is one space and whose
    monogram is empty makes [auto_monogram] index the empty trimmed name:
    the pipeline raises [IndexError], with and without grouping, whatever
    the header fields. *)
Theorem pipeline_raises_on_blank_name :
  let row : dict :=
    {[ "issue" := lit "第3742号"; "title" := lit "A"; "comment" := lit "c";
       "name" := lit " "; "org" := []; "bio" := []; "link" := lit "#a";
       "monogram" := []; "strip_color" := []; "comment_bar_color" := lit "#2563eb" ]} in
  auto_monogram (Some (lit " ")) = Raise IndexError
  ∧ ∀ title_text badge_text header_title delivery_text description_text,
      pipeline true title_text badge_text header_title delivery_text description_text [row]
      = Raise IndexError
      ∧ pipeline false title_text badge_text header_title delivery_text description_text [row]
        = Raise IndexError.
Proof.
  cbv zeta. split; [reflexivity|]. intros. unfold pipeline.
  split.
  - match goal with |- context [cards_html_list true ?l] =>
      assert (cards_html_list true l = Raise IndexError) as -> by (vm_compute; reflexivity) end.
    reflexivity.
  - match goal with |- context [cards_html_list false ?l] =>
      assert (cards_html_list false l = Raise IndexError) as -> by (vm_compute; reflexivity) end.
    reflexivity.
Qed.
